(** * auth/crypto.go: key cache, signature verification and signing

    A shallow embedding of [src/auth/crypto.go] (package [auth] of
    firebase-admin-go) and the properties of its key cache
    ([httpKeySource]), certificate parser ([parsePublicKey],
    [parsePublicKeys]), freshness header parser ([findMaxAge]), signature
    verifier ([verifySignature]) and service-account signer
    ([serviceAcctSigner]).

    Conventions.
    - A Go [string] and a [[]byte] are both sequences of bytes: a [string]
      (whose characters are the 256 bytes); [[]byte(s)] and [string(b)] are
      the identity.
    - [int64] and [uint64] values are integers of [Z] with the wrap-around
      written out ([wrap64], [wrapU64]).
    - A [time.Time] is the instant it denotes, in nanoseconds, as a [Z]; a
      [time.Duration] is an [int64] count of nanoseconds.
    - A Go function returning [(T, error)] returns an [outcome T]: [Ok],
      [Err] or, where the Go runtime would panic, [Panic].
    - The packages the file calls but does not define (net/http, ctxhttp,
      ioutil, encoding/json, encoding/pem, crypto/x509, crypto/rsa,
      crypto/sha256, the system clock and the runtime's choice of map
      iteration order) are the fields of the class [External]. The
      functions of [strings], [strconv], [net/textproto] and
      [encoding/base64] the file relies on are modelled concretely. *)

From Stdlib Require Import ZArith Lia String Ascii List.
From Stdlib Require Import DecimalString DecimalPos DecimalZ.
From stdpp Require Import base option list gmap strings.

Local Open Scope string_scope.
Local Open Scope Z_scope.

(** ** Machine integers *)

Definition wrapU64 (z : Z) : Z := z mod 2 ^ 64.
Definition wrap64 (z : Z) : Z := (z + 2 ^ 63) mod 2 ^ 64 - 2 ^ 63.

Definition minInt64 : Z := - 2 ^ 63.
Definition maxInt64 : Z := 2 ^ 63 - 1.
Definition maxUint64 : Z := 2 ^ 64 - 1.

(** ** Errors, panics and results *)

(** The [Err] field of a [*strconv.NumError]. *)
Inductive strconv_Err := ErrSyntax | ErrRange.

(** The packages whose errors the file passes on unchanged. *)
Inductive package :=
  | net_http | ctxhttp | io_ioutil | encoding_json | crypto_x509 | crypto_rsa.

(** Go error values. [errors.New] and [fmt.Errorf] build the errors of this
    file; an error of a called package keeps the package it came from, so
    that it is never equal to an error made here (in Go, [errors.New]
    returns a fresh pointer). *)
Inductive error :=
  | errors_New (text : string)
  | fmt_Errorf (text : string)
  | strconv_NumError (Func Num : string) (e : strconv_Err)
  | base64_CorruptInputError (offset : Z)
  | lib_error (pkg : package) (text : string).

(** Run-time panics of the Go runtime. *)
Inductive panic :=
  | nil_pointer_dereference
  | index_out_of_range (index len : nat)
  | slice_bounds_out_of_range (index len : Z).

Inductive outcome (A : Type) :=
  | Ok (a : A)
  | Err (e : error)
  | Panic (p : panic).
Arguments Ok {A} a.
Arguments Err {A} e.
Arguments Panic {A} p.

Definition is_Ok {A} (o : outcome A) : bool :=
  match o with Ok _ => true | _ => false end.
Definition is_Err {A} (o : outcome A) : bool :=
  match o with Err _ => true | _ => false end.
Definition is_Panic {A} (o : outcome A) : bool :=
  match o with Panic _ => true | _ => false end.

(** What a function of another package returns: a value or the text of its
    error. *)
Inductive lib_result (A : Type) :=
  | LibOk (a : A)
  | LibErr (text : string).
Arguments LibOk {A} a.
Arguments LibErr {A} text.

Definition from_lib {A} (pkg : package) (r : lib_result A) : outcome A :=
  match r with
  | LibOk a => Ok a
  | LibErr text => Err (lib_error pkg text)
  end.

(** ** package strings *)

Definition byte_code (c : ascii) : Z := Z.of_N (N_of_ascii c).

(** [strings.HasPrefix(s, prefix)]. *)
Definition strings_HasPrefix (s prefix : string) : bool := String.prefix prefix s.

(** [strings.Index(s, substr)]: the index of the first instance of [substr]
    in [s], or -1. *)
Definition strings_Index (s substr : string) : Z :=
  match String.index 0 substr s with
  | Some n => Z.of_nat n
  | None => -1
  end.

(** [strings.Split(s, sep)] for a non-empty [sep] (the file splits on a
    comma): [skip] counts the bytes of a separator still to be passed. The
    result is never empty; its head is the piece being read. *)
Fixpoint genSplit (sep : string) (skip : nat) (s : string) : list string :=
  match s with
  | "" => [""]
  | String c s' =>
      match skip with
      | S k => genSplit sep k s'
      | O =>
          if String.prefix sep s
          then "" :: genSplit sep (String.length sep - 1) s'
          else match genSplit sep 0 s' with
               | piece :: rest => String c piece :: rest
               | [] => [String c ""]
               end
      end
  end.

Definition strings_Split (s sep : string) : list string := genSplit sep 0 s.

(** The UTF-8 encodings of the code points [unicode.IsSpace] accepts:
    the six ASCII spaces, U+0085, U+00A0, U+1680, U+2000..U+200A, U+2028,
    U+2029, U+202F, U+205F and U+3000. *)
Definition utf8_space_codes : list (list N) :=
  [ [0x09]; [0x0A]; [0x0B]; [0x0C]; [0x0D]; [0x20];
    [0xC2; 0x85]; [0xC2; 0xA0];
    [0xE1; 0x9A; 0x80];
    [0xE2; 0x80; 0x80]; [0xE2; 0x80; 0x81]; [0xE2; 0x80; 0x82];
    [0xE2; 0x80; 0x83]; [0xE2; 0x80; 0x84]; [0xE2; 0x80; 0x85];
    [0xE2; 0x80; 0x86]; [0xE2; 0x80; 0x87]; [0xE2; 0x80; 0x88];
    [0xE2; 0x80; 0x89]; [0xE2; 0x80; 0x8A];
    [0xE2; 0x80; 0xA8]; [0xE2; 0x80; 0xA9]; [0xE2; 0x80; 0xAF];
    [0xE2; 0x81; 0x9F];
    [0xE3; 0x80; 0x80] ]%N.

Definition utf8_spaces : list (list ascii) :=
  Eval cbv in map (map ascii_of_N) utf8_space_codes.

Fixpoint strip_prefix (p l : list ascii) : option (list ascii) :=
  match p, l with
  | [], _ => Some l
  | a :: p', b :: l' => if Ascii.eqb a b then strip_prefix p' l' else None
  | _ :: _, [] => None
  end.

(** Drops one leading space rune, if there is one. *)
Fixpoint strip_space (pats : list (list ascii)) (l : list ascii) : option (list ascii) :=
  match pats with
  | [] => None
  | p :: pats' =>
      match strip_prefix p l with
      | Some l' => Some l'
      | None => strip_space pats' l
      end
  end.

Fixpoint trim_spaces (fuel : nat) (pats : list (list ascii)) (l : list ascii) : list ascii :=
  match fuel with
  | O => l
  | S fuel' =>
      match strip_space pats l with
      | Some l' => trim_spaces fuel' pats l'
      | None => l
      end
  end.

(** [strings.TrimLeftFunc(s, unicode.IsSpace)] and
    [strings.TrimRightFunc(s, unicode.IsSpace)] on the bytes of [s]; the
    right trim reads the runes backwards. *)
Definition trimLeftSpace (l : list ascii) : list ascii :=
  trim_spaces (length l) utf8_spaces l.
Definition trimRightSpace (l : list ascii) : list ascii :=
  rev (trim_spaces (length l) (map (@rev ascii) utf8_spaces) (rev l)).

(** [strings.TrimSpace(s)]. *)
Definition strings_TrimSpace (s : string) : string :=
  string_of_list_ascii (trimRightSpace (trimLeftSpace (list_ascii_of_string s))).

(** [s[i:]]: panics unless [0 <= i <= len(s)]. *)
Definition slice_from (s : string) (i : Z) : outcome string :=
  if (0 <=? i) && (i <=? Z.of_nat (String.length s))
  then Ok (String.substring (Z.to_nat i) (String.length s - Z.to_nat i) s)
  else Panic (slice_bounds_out_of_range i (Z.of_nat (String.length s))).

(** ** package strconv *)

Definition digit_of (c : ascii) : option Z :=
  let n := byte_code c in
  if (48 <=? n) && (n <=? 57) then Some (n - 48) else None.

(** The loop of [strconv.ParseUint(s, 10, 64)]; [n] is a [uint64]. *)
Fixpoint ParseUint_loop (s : string) (n : Z) : Z + strconv_Err :=
  match s with
  | "" => inl n
  | String c s' =>
      match digit_of c with
      | None => inr ErrSyntax
      | Some d =>
          if maxUint64 / 10 + 1 <=? n then inr ErrRange
          else
            let n10 := wrapU64 (n * 10) in
            let n1 := wrapU64 (n10 + d) in
            if (n1 <? n10) || (maxUint64 <? n1) then inr ErrRange
            else ParseUint_loop s' n1
      end
  end.

Definition strconv_ParseUint (s : string) : Z + strconv_Err :=
  match s with
  | "" => inr ErrSyntax
  | _ => ParseUint_loop s 0
  end.

(** [strconv.ParseInt(s, 10, 64)]. *)
Definition strconv_ParseInt (s0 : string) : outcome Z :=
  match s0 with
  | "" => Err (strconv_NumError "ParseInt" s0 ErrSyntax)
  | String c rest =>
      let neg := Ascii.eqb c "-" in
      let s := if Ascii.eqb c "+" || neg then rest else s0 in
      match strconv_ParseUint s with
      | inr ErrSyntax => Err (strconv_NumError "ParseInt" s0 ErrSyntax)
      | inr ErrRange => Err (strconv_NumError "ParseInt" s0 ErrRange)
      | inl un =>
          let cutoff := 2 ^ 63 in
          if negb neg && (cutoff <=? un) then Err (strconv_NumError "ParseInt" s0 ErrRange)
          else if neg && (cutoff <? un) then Err (strconv_NumError "ParseInt" s0 ErrRange)
          else
            let n := wrap64 un in
            Ok (if neg then wrap64 (- n) else n)
      end
  end.

(** ** package time *)

Definition Time := Z.
Definition Duration := Z.
Definition time_Second : Duration := 1000000000.

(** [t.After(u)]. *)
Definition Time_After (t u : Time) : bool := u <? t.
(** [t.Add(d)]. *)
Definition Time_Add (t : Time) (d : Duration) : Time := t + d.

(** The zero [time.Time]: January 1, year 1, 00:00:00 UTC. *)
Definition Time_zero : Time := -62135596800 * 1000000000.

(** ** package net/textproto and net/http *)

Definition validHeaderFieldByte (c : ascii) : bool :=
  let n := byte_code c in
  ((48 <=? n) && (n <=? 57)) || ((65 <=? n) && (n <=? 90)) || ((97 <=? n) && (n <=? 122))
  || bool_decide (n ∈ [33; 35; 36; 37; 38; 39; 42; 43; 45; 46; 94; 95; 96; 124; 126]).

Fixpoint string_forallb (f : ascii -> bool) (s : string) : bool :=
  match s with
  | "" => true
  | String c s' => f c && string_forallb f s'
  end.

Fixpoint canonical_case (upper : bool) (s : string) : string :=
  match s with
  | "" => ""
  | String c s' =>
      let n := byte_code c in
      let c' :=
        if upper && (97 <=? n) && (n <=? 122) then ascii_of_N (Z.to_N (n - 32))
        else if negb upper && (65 <=? n) && (n <=? 90) then ascii_of_N (Z.to_N (n + 32))
        else c in
      String c' (canonical_case (Ascii.eqb c' "-") s')
  end.

(** [textproto.CanonicalMIMEHeaderKey(s)]: a key with a byte that is not a
    token byte is returned unchanged. *)
Definition textproto_CanonicalMIMEHeaderKey (s : string) : string :=
  if string_forallb validHeaderFieldByte s then canonical_case true s else s.

(** [http.Header] is a [map[string][]string]; [h.Get(key)] is the first
    value of the canonical form of [key], or the empty string. *)
Definition Header_Get (h : gmap string (list string)) (key : string) : string :=
  match h !! textproto_CanonicalMIMEHeaderKey key with
  | Some (v :: _) => v
  | _ => ""
  end.

(** ** package encoding/base64: [RawURLEncoding] *)

Definition encodeURL : string :=
  "ABCDEFGHIJKLMNOPQRSTUVWXYZabcdefghijklmnopqrstuvwxyz0123456789-_".

(** The character of a 6-bit value. *)
Definition b64_char (v : Z) : ascii :=
  match String.get (Z.to_nat v) encodeURL with
  | Some c => c
  | None => "A"%char
  end.

Fixpoint index_of (c : ascii) (s : string) (i : Z) : option Z :=
  match s with
  | "" => None
  | String d s' => if Ascii.eqb c d then Some i else index_of c s' (i + 1)
  end.

(** The decode map of the encoding: the 6-bit value of a character. *)
Definition b64_value (c : ascii) : option Z := index_of c encodeURL 0.

Definition byte_of (z : Z) : ascii := ascii_of_N (Z.to_N (z mod 256)).

(** [RawURLEncoding.EncodeToString(src)]: no padding. *)
Fixpoint base64_EncodeToString (src : string) : string :=
  match src with
  | String a (String b (String c rest)) =>
      let x := byte_code a in let y := byte_code b in let z := byte_code c in
      String (b64_char (Z.shiftr x 2))
        (String (b64_char (Z.lor (Z.shiftl (Z.land x 3) 4) (Z.shiftr y 4)))
          (String (b64_char (Z.lor (Z.shiftl (Z.land y 15) 2) (Z.shiftr z 6)))
            (String (b64_char (Z.land z 63)) (base64_EncodeToString rest))))
  | String a (String b "") =>
      let x := byte_code a in let y := byte_code b in
      String (b64_char (Z.shiftr x 2))
        (String (b64_char (Z.lor (Z.shiftl (Z.land x 3) 4) (Z.shiftr y 4)))
          (String (b64_char (Z.shiftl (Z.land y 15) 2)) ""))
  | String a "" =>
      let x := byte_code a in
      String (b64_char (Z.shiftr x 2)) (String (b64_char (Z.shiftl (Z.land x 3) 4)) "")
  | "" => ""
  end.

Definition outcome_map {A B} (f : A -> B) (o : outcome A) : outcome B :=
  match o with
  | Ok a => Ok (f a)
  | Err e => Err e
  | Panic p => Panic p
  end.

(** The decoding loop: [si] is the offset in the input, [q] the 6-bit values
    of the quantum being read. Line feeds and carriage returns are skipped;
    a quantum cut short by the end of the input gives one or two bytes, and
    a single left-over character is corrupt ([strict] mode is off: the
    unused low bits are not checked). *)
Fixpoint base64_decode (src : string) (si : Z) (q : list Z) : outcome string :=
  match src with
  | "" =>
      match q with
      | [] => Ok ""
      | [_] => Err (base64_CorruptInputError (si - 1))
      | [a; b] => Ok (String (byte_of (Z.lor (Z.shiftl a 2) (Z.shiftr b 4))) "")
      | a :: b :: c :: _ =>
          Ok (String (byte_of (Z.lor (Z.shiftl a 2) (Z.shiftr b 4)))
               (String (byte_of (Z.lor (Z.shiftl b 4) (Z.shiftr c 2))) ""))
      end
  | String ch rest =>
      if Ascii.eqb ch "010" || Ascii.eqb ch "013" then base64_decode rest (si + 1) q
      else
        match b64_value ch with
        | None => Err (base64_CorruptInputError si)
        | Some d =>
            match q with
            | [a; b; c] =>
                outcome_map
                  (fun out =>
                     String (byte_of (Z.lor (Z.shiftl a 2) (Z.shiftr b 4)))
                       (String (byte_of (Z.lor (Z.shiftl b 4) (Z.shiftr c 2)))
                         (String (byte_of (Z.lor (Z.shiftl c 6) d)) out)))
                  (base64_decode rest (si + 1) [])
            | _ => base64_decode rest (si + 1) (q ++ [d])
            end
        end
  end.

(** [RawURLEncoding.DecodeString(s)]. *)
Definition base64_DecodeString (s : string) : outcome string := base64_decode s 0 [].

(** ** Data of the called packages *)

(** [rsa.PublicKey] and [rsa.PrivateKey]. *)
Record rsa_PublicKey := { rsa_N : Z; rsa_E : Z }.
Record rsa_PrivateKey := { rsa_Public : rsa_PublicKey; rsa_D : Z; rsa_Primes : list Z }.

(** The dynamic type of the [PublicKey] field of an [x509.Certificate]. *)
Inductive crypto_PublicKey :=
  | RSAPublicKey (k : rsa_PublicKey)
  | OtherPublicKey (algorithm : string).

Record x509_Certificate := { cert_Raw : string; cert_PublicKey : crypto_PublicKey }.

(** [pem.Block]. *)
Record pem_Block := { pem_Type : string; pem_Bytes : string }.

(** [crypto.Hash]: the file only names [crypto.SHA256]. *)
Inductive crypto_Hash := crypto_SHA256.

(** [http.Response], as far as the file reads it. *)
Record http_Response (Body : Type) := {
  resp_Header : gmap string (list string);
  resp_Body : Body
}.
Arguments resp_Header {Body} _.
Arguments resp_Body {Body} _.

(** ** The called packages and the outside world

    The functions of other packages are parameters. The network and the
    system clock answer by the number of the call: [ctxhttp_Do n] is what
    the [n]-th fetch of the run returns, [time_Now n] what the [n]-th
    reading of the system clock returns. [map_range n m] is the order in
    which the Go runtime visits the entries of the map [m] in the [range]
    loop that follows the [n]-th fetch. *)
Class External := {
  context_Context : Type;
  Client : Type;
  Request : Type;
  Body : Type;
  Entropy : Type;
  http_NewRequest : string -> string -> lib_result Request;
  ctxhttp_Do : nat -> context_Context -> option Client -> Request -> lib_result (http_Response Body);
  ioutil_ReadAll : Body -> lib_result string;
  json_Unmarshal : string -> lib_result (gmap string string);
  map_range : nat -> gmap string string -> list (string * string);
  pem_Decode : string -> option pem_Block;
  x509_ParseCertificate : string -> lib_result x509_Certificate;
  sha256_Sum : string -> string;
  rsa_VerifyPKCS1v15 : rsa_PublicKey -> crypto_Hash -> string -> string -> option string;
  rsa_SignPKCS1v15 : Entropy -> rsa_PrivateKey -> crypto_Hash -> string -> lib_result string;
  time_Now : nat -> Time
}.

(** What a run has done to the outside world so far: the readings taken of
    the system clock and the fetches issued; [refresh_calls] counts the
    calls of [refreshKeys]. *)
Record World := {
  now_calls : nat;
  http_calls : nat;
  refresh_calls : nat
}.

Definition tick_now (w : World) : World :=
  {| now_calls := S (now_calls w); http_calls := http_calls w; refresh_calls := refresh_calls w |}.
Definition tick_http (w : World) : World :=
  {| now_calls := now_calls w; http_calls := S (http_calls w); refresh_calls := refresh_calls w |}.
Definition tick_refresh (w : World) : World :=
  {| now_calls := now_calls w; http_calls := http_calls w; refresh_calls := S (refresh_calls w) |}.

(** ** The clock interface and its two implementations *)

(** [type clock interface { Now() time.Time }]. A clock may read the world
    (and advance its count of readings); it issues no fetch and no refresh. *)
Class clock (C : Type) := {
  Now : C -> World -> Time * World;
  Now_http : forall c w, http_calls (Now c w).2 = http_calls w;
  Now_refresh : forall c w, refresh_calls (Now c w).2 = refresh_calls w
}.

Inductive systemClock := SystemClock.
Record mockClock := { now : Time }.

#[export] Instance systemClock_clock `{External} : clock systemClock :=
  {| Now := fun _ w => (time_Now (now_calls w), tick_now w);
     Now_http := fun _ _ => eq_refl;
     Now_refresh := fun _ _ => eq_refl |}.

#[export] Instance mockClock_clock : clock mockClock :=
  {| Now := fun m w => (now m, w);
     Now_http := fun _ _ => eq_refl;
     Now_refresh := fun _ _ => eq_refl |}.

(** ** package auth: the key cache *)

(** [publicKey]: a parsed RSA public key along with its key ID. *)
Record publicKey := { Kid : string; Key : rsa_PublicKey }.

(** [httpKeySource]. [Mutex] is not a field of the model: [Keys] holds it
    from its first statement to its return (also when it panics, by the
    deferred [Unlock]), so that calls run one after the other; a call is one
    step of the model. *)
Record httpKeySource `{External} (C : Type) := {
  KeyURI : string;
  HTTPClient : option Client;
  CachedKeys : list publicKey;
  ExpiryTime : Time;
  Clock : C
}.
Arguments KeyURI {_ C} _.
Arguments HTTPClient {_ C} _.
Arguments CachedKeys {_ C} _.
Arguments ExpiryTime {_ C} _.
Arguments Clock {_ C} _.

Definition newHTTPKeySource `{External} (uri : string) (hc : option Client)
  : httpKeySource systemClock :=
  {| KeyURI := uri; HTTPClient := hc; CachedKeys := []; ExpiryTime := Time_zero;
     Clock := SystemClock |}.

(** [k.CachedKeys = keys] and [k.ExpiryTime = t]. *)
Definition with_CachedKeys `{External} {C} (k : httpKeySource C) (keys : list publicKey)
  : httpKeySource C :=
  {| KeyURI := KeyURI k; HTTPClient := HTTPClient k; CachedKeys := keys;
     ExpiryTime := ExpiryTime k; Clock := Clock k |}.
Definition with_ExpiryTime `{External} {C} (k : httpKeySource C) (t : Time)
  : httpKeySource C :=
  {| KeyURI := KeyURI k; HTTPClient := HTTPClient k; CachedKeys := CachedKeys k;
     ExpiryTime := t; Clock := Clock k |}.

(** *** The monad of the methods of [*httpKeySource]

    A method runs on the key source and the world; it returns a value,
    returns an error ([Err]) or panics, and leaves a key source and a
    world behind in each case. *)
Section Monad.
Context `{External} {C : Type}.

Definition state : Type := httpKeySource C * World.
Definition M (A : Type) : Type := state -> outcome A * state.

Definition ret {A} (a : A) : M A := fun s => (Ok a, s).
Definition bind {A B} (m : M A) (f : A -> M B) : M B :=
  fun s =>
    match m s with
    | (Ok a, s') => f a s'
    | (Err e, s') => (Err e, s')
    | (Panic p, s') => (Panic p, s')
    end.
(** [return err]. *)
Definition throw {A} (e : error) : M A := fun s => (Err e, s).
(** The result of a call that touches neither the key source nor the world. *)
Definition lift {A} (o : outcome A) : M A := fun s => (o, s).
(** [err := m]: the error of [m] as a value ([None] is [nil]). *)
Definition catch (m : M unit) : M (option error) :=
  fun s =>
    match m s with
    | (Ok _, s') => (Ok None, s')
    | (Err e, s') => (Ok (Some e), s')
    | (Panic p, s') => (Panic p, s')
    end.
Definition get_k : M (httpKeySource C) := fun s => (Ok s.1, s).
Definition get_world : M World := fun s => (Ok s.2, s).
Definition put_world (w : World) : M unit := fun s => (Ok tt, (s.1, w)).
Definition set_CachedKeys (keys : list publicKey) : M unit :=
  fun s => (Ok tt, (with_CachedKeys s.1 keys, s.2)).
Definition set_ExpiryTime (t : Time) : M unit :=
  fun s => (Ok tt, (with_ExpiryTime s.1 t, s.2)).
End Monad.

Notation "x <- m ;; k" := (bind m (fun x => k))
  (at level 90, m at level 80, right associativity).
Notation "m ;;; k" := (bind m (fun _ => k))
  (at level 90, right associativity).

(** Sequencing of results outside the monad: [Err] and [Panic] pass through. *)
Definition obind {A B} (o : outcome A) (f : A -> outcome B) : outcome B :=
  match o with
  | Ok a => f a
  | Err e => Err e
  | Panic p => Panic p
  end.
Notation "'try' x ':=' o 'in' k" := (obind o (fun x => k))
  (at level 10, x name, o at level 100, k at level 200).

(** [findMaxAge]: the loop over the directives of the header. *)
Fixpoint findMaxAge_range (values : list string) : outcome Duration :=
  match values with
  | [] => Err (errors_New "Could not find expiry time from HTTP headers")
  | value :: values' =>
      let value := strings_TrimSpace value in
      if strings_HasPrefix value "max-age="
      then
        let sep := strings_Index value "=" in
        try digits := slice_from value (sep + 1) in
        try seconds := strconv_ParseInt digits in
        Ok (wrap64 (seconds * time_Second))
      else findMaxAge_range values'
  end.

Definition findMaxAge {B} (resp : http_Response B) : outcome Duration :=
  let cc := Header_Get (resp_Header resp) "cache-control" in
  findMaxAge_range (strings_Split cc ",").

(** [s[i]] on a slice of strings: panics when [i] is out of range. *)
Definition index_string (parts : list string) (i : nat) : outcome string :=
  match parts !! i with
  | Some s => Ok s
  | None => Panic (index_out_of_range i (length parts))
  end.

(** [serviceAcctSigner]: [pk] is a pointer, [None] is [nil]. *)
Record serviceAcctSigner := { email : string; pk : option rsa_PrivateKey }.

Section Auth.
Context `{External}.

(** [parsePublicKey]: [block] is [nil] when the bytes hold no PEM block,
    and the next statement reads [block.Bytes]. *)
Definition parsePublicKey (kid : string) (key : string) : outcome publicKey :=
  match pem_Decode key with
  | None => Panic nil_pointer_dereference
  | Some block =>
      try cert := from_lib crypto_x509 (x509_ParseCertificate (pem_Bytes block)) in
      match cert_PublicKey cert with
      | RSAPublicKey pk => Ok {| Kid := kid; Key := pk |}
      | OtherPublicKey _ => Err (errors_New "Certificate is not a RSA key")
      end
  end.

Fixpoint parsePublicKeys_range (entries : list (string * string)) (result : list publicKey)
  : outcome (list publicKey) :=
  match entries with
  | [] => Ok result
  | (kid, key) :: entries' =>
      try pubKey := parsePublicKey kid key in
      parsePublicKeys_range entries' (result ++ [pubKey])
  end.

(** [parsePublicKeys]; [seed] stands for the runtime's choice of the
    order of the [range] loop over the map. *)
Definition parsePublicKeys (seed : nat) (keys : string) : outcome (list publicKey) :=
  try m := from_lib encoding_json (json_Unmarshal keys) in
  parsePublicKeys_range (map_range seed m) [].

(** [verifySignature]; [k] is not [nil]. *)
Definition verifySignature (parts : list string) (k : publicKey) : outcome unit :=
  try p0 := index_string parts 0 in
  try p1 := index_string parts 1 in
  let content := (p0 +:+ "." +:+ p1)%string in
  try p2 := index_string parts 2 in
  try signature := base64_DecodeString p2 in
  match rsa_VerifyPKCS1v15 (Key k) crypto_SHA256 (sha256_Sum content) signature with
  | None => Ok tt
  | Some text => Err (lib_error crypto_rsa text)
  end.

(** [serviceAcctSigner.Email]. *)
Definition Email (s : serviceAcctSigner) (ctx : context_Context) : outcome string :=
  if String.eqb (email s) "" then Err (errors_New "service account email not available")
  else Ok (email s).

(** [serviceAcctSigner.Sign]; [rand] is what [rand.Reader] yields. *)
Definition Sign (s : serviceAcctSigner) (rand : Entropy) (ctx : context_Context) (ss : string)
  : outcome string :=
  match pk s with
  | None => Err (errors_New "private key not available")
  | Some key => from_lib crypto_rsa (rsa_SignPKCS1v15 rand key crypto_SHA256 (sha256_Sum ss))
  end.

Section KeySource.
Context {C : Type} `{!clock C}.
Local Abbreviation M := (M (C := C)).

(** [k.Clock.Now()]. *)
Definition Clock_Now : M Time :=
  fun s => let r := Now (Clock s.1) s.2 in (Ok r.1, (s.1, r.2)).

(** [ctxhttp.Do(ctx, client, req)]: one more fetch. *)
Definition Do (ctx : context_Context) (client : option Client) (req : Request)
  : M (http_Response Body) :=
  fun s => (from_lib ctxhttp (ctxhttp_Do (http_calls s.2) ctx client req),
            (s.1, tick_http s.2)).

(** [hasExpired]. *)
Definition hasExpired : M bool :=
  t <- Clock_Now ;;
  k <- get_k ;;
  ret (Time_After t (ExpiryTime k)).

(** [refreshKeys]. *)
Definition refreshKeys (ctx : context_Context) (httpClient : option Client) : M unit :=
  w <- get_world ;;
  put_world (tick_refresh w) ;;;
  set_CachedKeys [] ;;;
  k <- get_k ;;
  req <- lift (from_lib net_http (http_NewRequest "GET" (KeyURI k))) ;;
  let client := match httpClient with
                | Some c => Some c
                | None => HTTPClient k
                end in
  w <- get_world ;;
  resp <- Do ctx client req ;;
  contents <- lift (from_lib io_ioutil (ioutil_ReadAll (resp_Body resp))) ;;
  newKeys <- lift (parsePublicKeys (http_calls w) contents) ;;
  maxAge <- lift (findMaxAge resp) ;;
  set_CachedKeys ([] ++ newKeys) ;;;
  t <- Clock_Now ;;
  set_ExpiryTime (Time_Add t maxAge).

(** [Keys]. *)
Definition Keys (ctx : context_Context) (httpClient : option Client) : M (list publicKey) :=
  k <- get_k ;;
  stale <- (if (length (CachedKeys k) =? 0)%nat then ret true else hasExpired) ;;
  (if stale : bool
   then
     err <- catch (refreshKeys ctx httpClient) ;;
     k <- get_k ;;
     match err with
     | Some e => if (length (CachedKeys k) =? 0)%nat then throw e else ret tt
     | None => ret tt
     end
   else ret tt) ;;;
  k <- get_k ;;
  ret (CachedKeys k).
End KeySource.
End Auth.

(** ** package auth: the private key of the service account *)

(** The dynamic type of the key [x509.ParsePKCS8PrivateKey] returns. *)
Inductive crypto_PrivateKey :=
  | RSAPrivateKey (k : rsa_PrivateKey)
  | OtherPrivateKey (algorithm : string).

(** The two parsers of [crypto/x509] that [parsePrivateKey] calls. *)
Class PrivateKeyParsers := {
  x509_ParsePKCS8PrivateKey : string -> lib_result crypto_PrivateKey;
  x509_ParsePKCS1PrivateKey : string -> lib_result rsa_PrivateKey
}.

Section PrivateKey.
Context `{External} `{PrivateKeyParsers}.

(** [parsePrivateKey]: [fmt.Errorf] with [%v] writes the key, and the text
    of the error of the PKCS#1 parser, as they are. *)
Definition parsePrivateKey (key : string) : outcome rsa_PrivateKey :=
  match pem_Decode key with
  | None => Err (fmt_Errorf ("no private key data found in: " +:+ key))
  | Some block =>
      let k := pem_Bytes block in
      try parsedKey :=
        match x509_ParsePKCS8PrivateKey k with
        | LibOk parsedKey => Ok parsedKey
        | LibErr _ =>
            match x509_ParsePKCS1PrivateKey k with
            | LibOk rsaKey => Ok (RSAPrivateKey rsaKey)
            | LibErr text =>
                Err (fmt_Errorf
                       ("private key should be a PEM or plain PKSC1 or PKCS8; parse error: "
                        +:+ text))
            end
        end in
      match parsedKey with
      | RSAPrivateKey parsed => Ok parsed
      | OtherPrivateKey _ => Err (errors_New "private key is not an RSA key")
      end
  end.
End PrivateKey.

(** ** A test double of the outside world

    [Fake.external server] answers the [n]-th fetch with [server n]. A key
    document is one of a few fixed texts; a certificate is a text starting
    with the PEM begin line, whose body names the kind of its key. Digests
    and signatures are symbolic. It serves to run the code on concrete
    inputs. *)
Module Fake.

Definition pem_begin : string := "-----BEGIN CERTIFICATE-----".
Definition cert_rsa : string := "-----BEGIN CERTIFICATE-----RSA".
Definition cert_ec : string := "-----BEGIN CERTIFICATE-----EC".
Definition cert_bad : string := "-----BEGIN CERTIFICATE-----".
Definition not_pem : string := "not a PEM block".

Definition rsa_key : rsa_PublicKey := {| rsa_N := 3233; rsa_E := 17 |}.
Definition rsa_priv : rsa_PrivateKey :=
  {| rsa_Public := rsa_key; rsa_D := 2753; rsa_Primes := [61; 53] |}.

Definition decode_document (body : string) : lib_result (gmap string string) :=
  if String.eqb body "{}" then LibOk ∅
  else if String.eqb body "{k1: rsa}" then LibOk {[ "k1" := cert_rsa ]}
  else if String.eqb body "{k1: ec}" then LibOk {[ "k1" := cert_ec ]}
  else if String.eqb body "{k1: bad}" then LibOk {[ "k1" := cert_bad ]}
  else if String.eqb body "{k1: none}" then LibOk {[ "k1" := not_pem ]}
  else LibErr "invalid character".

Definition decode_pem (key : string) : option pem_Block :=
  if String.prefix pem_begin key
  then Some {| pem_Type := "CERTIFICATE";
               pem_Bytes := String.substring 27 (String.length key - 27) key |}
  else None.

Definition parse_certificate (der : string) : lib_result x509_Certificate :=
  if String.eqb der "RSA"
  then LibOk {| cert_Raw := der; cert_PublicKey := RSAPublicKey rsa_key |}
  else if String.eqb der "EC"
  then LibOk {| cert_Raw := der; cert_PublicKey := OtherPublicKey "ECDSA" |}
  else LibErr "asn1: syntax error".

Definition key_tag (k : rsa_PublicKey) : string :=
  if (rsa_N k =? 3233) && (rsa_E k =? 17) then "#3233" else "#other".

Definition external (server : nat -> lib_result (http_Response string)) : External :=
  {| context_Context := unit;
     Client := unit;
     Request := string;
     Body := string;
     Entropy := unit;
     http_NewRequest := fun method url => LibOk (method +:+ " " +:+ url)%string;
     ctxhttp_Do := fun n _ _ _ => server n;
     ioutil_ReadAll := fun body => LibOk body;
     json_Unmarshal := decode_document;
     map_range := fun _ m => map_to_list m;
     pem_Decode := decode_pem;
     x509_ParseCertificate := parse_certificate;
     sha256_Sum := fun s => ("sha256:" +:+ s)%string;
     rsa_VerifyPKCS1v15 := fun k _ digest sig =>
       if String.eqb sig (digest +:+ key_tag k)%string then None
       else Some "crypto/rsa: verification error";
     rsa_SignPKCS1v15 := fun _ k _ digest => LibOk (digest +:+ key_tag (rsa_Public k))%string;
     time_Now := fun n => 1000 * Z.of_nat n |}.

(** A response with the given Cache-Control header and body. *)
Definition response (cc body : string) : lib_result (http_Response string) :=
  LibOk {| resp_Header := {[ "Cache-Control" := [cc] ]}; resp_Body := body |}.

(** The world of a server that always answers with the same header and body. *)
Definition server (cc body : string) : External := external (fun _ => response cc body).

Definition w0 : World := {| now_calls := 0; http_calls := 0; refresh_calls := 0 |}.

(** A key source with a mock clock. *)
Definition source (E : External) (keys : list publicKey) (expiry t : Time)
  : httpKeySource mockClock :=
  {| KeyURI := "https://example.test/keys"; HTTPClient := None; CachedKeys := keys;
     ExpiryTime := expiry; Clock := {| now := t |} |}.

End Fake.

(** The private keys of the test double: the body of a PEM text names the
    encoding of the key it holds. *)
Module FakePrivate.

Definition pkcs8_rsa : string := "-----BEGIN CERTIFICATE-----PKCS8-RSA".
Definition pkcs8_ec : string := "-----BEGIN CERTIFICATE-----PKCS8-EC".
Definition pkcs1_rsa : string := "-----BEGIN CERTIFICATE-----PKCS1-RSA".
Definition garbage : string := "-----BEGIN CERTIFICATE-----XYZ".

Definition parse_pkcs8 (der : string) : lib_result crypto_PrivateKey :=
  if String.eqb der "PKCS8-RSA" then LibOk (RSAPrivateKey Fake.rsa_priv)
  else if String.eqb der "PKCS8-EC" then LibOk (OtherPrivateKey "ECDSA")
  else LibErr "x509: failed to parse private key".

Definition parse_pkcs1 (der : string) : lib_result rsa_PrivateKey :=
  if String.eqb der "PKCS1-RSA" then LibOk Fake.rsa_priv
  else if String.eqb der "PKCS8-EC" then LibOk Fake.rsa_priv
  else LibErr "asn1: structure error".

Definition parsers : PrivateKeyParsers :=
  {| x509_ParsePKCS8PrivateKey := parse_pkcs8;
     x509_ParsePKCS1PrivateKey := parse_pkcs1 |}.

End FakePrivate.

(** * The vocabulary of the properties *)

(** The decimal numeral of [z], as [strconv.FormatInt(z, 10)] writes it. *)
Definition decimal (z : Z) : string := NilZero.string_of_int (Z.to_int z).

(** The value [ParseUint_loop] computes from an accumulator [n]. *)
Definition loop_value (d : Decimal.uint) (n : Z) : Z :=
    n * 10 ^ Z.of_N (DecimalPos.Unsigned.usize d) + Z.of_N (DecimalPos.Unsigned.of_lu (Decimal.rev d)).

(** The directives of a Cache-Control header: the pieces between commas,
    trimmed. *)
Definition directives (cc : string) : list string :=
  strings_TrimSpace <$> strings_Split cc ",".

(** The header carries the directive [max-age=S]: it is the first of its
    directives that starts with [max-age=]. *)
Definition max_age_directive (cc : string) (S : Z) : Prop :=
  exists i : nat,
    directives cc !! i = Some ("max-age=" +:+ decimal S)%string /\
    forall (j : nat) d, (j < i)%nat -> directives cc !! j = Some d ->
                        strings_HasPrefix d "max-age=" = false.

(** The seconds [findMaxAge] reads from the directives of a header, before
    it turns them into a duration. *)
Fixpoint max_age_seconds_range (values : list string) : outcome Z :=
  match values with
  | [] => Err (errors_New "Could not find expiry time from HTTP headers")
  | value :: values' =>
      let value := strings_TrimSpace value in
      if strings_HasPrefix value "max-age="
      then
        try digits := slice_from value (strings_Index value "=" + 1) in
        strconv_ParseInt digits
      else max_age_seconds_range values'
  end.

Definition max_age_seconds (cc : string) : outcome Z :=
  max_age_seconds_range (strings_Split cc ",").

(** The characters of [s] the decoder reads: all but line feeds and
    carriage returns. *)
Fixpoint b64_payload (s : string) : list ascii :=
  match s with
  | "" => []
  | String c s' =>
      if Ascii.eqb c "010" || Ascii.eqb c "013" then b64_payload s' else c :: b64_payload s'
  end.

Definition in_alphabet (c : ascii) : bool :=
  match b64_value c with Some _ => true | None => false end.

(** Unpadded base64url text, as RFC 4648 writes it: characters of the URL
    alphabet only (no line break, no padding), and not a single character
    left over after the groups of four. *)
Definition base64url_text (s : string) : bool :=
  forallb in_alphabet (list_ascii_of_string s)
  && negb (length (list_ascii_of_string s) mod 4 =? 1)%nat.

(** The text the decoder of [RawURLEncoding] accepts, which is more than
    base64url text: what is left of [s] once its line feeds and carriage
    returns are taken out is base64url text. The bits of the last
    character that no byte uses are not looked at. *)
Definition base64_wellformed (s : string) : bool :=
  forallb in_alphabet (b64_payload s)
  && negb (length (b64_payload s) mod 4 =? 1)%nat.

Section Vocabulary.
Context `{External}.

(** The RSA key of the certificate in a PEM text, when the text holds a PEM
    block, the block a certificate, and the certificate an RSA key. *)
Definition rsa_key_of_pem (key : string) : option rsa_PublicKey :=
  match pem_Decode key with
  | Some block =>
      match x509_ParseCertificate (pem_Bytes block) with
      | LibOk cert =>
          match cert_PublicKey cert with
          | RSAPublicKey pk => Some pk
          | OtherPublicKey _ => None
          end
      | LibErr _ => None
      end
  | None => None
  end.

(** The signing input of a token: header segment, a dot, payload segment. *)
Definition signing_input (p0 p1 : string) : string := (p0 +:+ "." +:+ p1)%string.

(** What [rsa.VerifyPKCS1v15] answers, as an error value. *)
Definition rsa_verdict (r : option string) : outcome unit :=
  match r with
  | None => Ok tt
  | Some text => Err (lib_error crypto_rsa text)
  end.

(** The rule as the specification words it: a third segment that is not
    base64url text gives a decode error. *)
Definition decode_error_unless_base64url (p0 p1 p2 : string) (k : publicKey) : Prop :=
  base64url_text p2 = false ->
  exists offset, verifySignature [p0; p1; p2] k = Err (base64_CorruptInputError offset).

(** What the specification asks of [crypto/rsa]: a signature made with a
    private key verifies under its public key, for the same hash and
    digest. *)
Definition rsa_sign_then_verify : Prop :=
  forall rand key hash digest signature,
    rsa_SignPKCS1v15 rand key hash digest = LibOk signature ->
    rsa_VerifyPKCS1v15 (rsa_Public key) hash digest signature = None.

Section KeySourceVocabulary.
Context {C : Type} `{!clock C}.
Implicit Types (k : httpKeySource C) (w : World) (ctx : context_Context) (hc : option Client).

(** The client of a refresh: the override if there is one. *)
Definition client_of k hc : option Client :=
  match hc with
  | Some c => Some c
  | None => HTTPClient k
  end.

(** The check at the head of [Keys]: is the cache empty or expired, and
    the world after the check. The clock is read only when the cache holds
    keys. *)
Definition stale_check k w : bool * World :=
  if (length (CachedKeys k) =? 0)%nat then (true, w)
  else let r := Now (Clock k) w in (Time_After r.1 (ExpiryTime k), r.2).

(** [Keys] called on [k] in world [w] performs a refresh. *)
Definition refreshed ctx hc k w : Prop :=
  refresh_calls (Keys ctx hc (k, w)).2.2 = S (refresh_calls w).

(** The rule as the specification words it: a refresh if and only if the
    snapshot is empty or its expiry is at or before the clock reading. *)
Definition refresh_rule_at_or_before ctx hc k w : Prop :=
  refreshed ctx hc k w <->
  CachedKeys k = [] \/ ExpiryTime k <= (Now (Clock k) w).1.

(** The snapshot of [k] is not expired at the instant [t]. *)
Definition not_expired_at k (t : Time) : Prop := Time_After t (ExpiryTime k) = false.

(** The invariant as the specification words it, for the snapshot a
    refresh leaves: empty, or not expired at the clock reading of its
    installation. *)
Definition snapshot_valid_when_installed ctx hc k w : Prop :=
  let k' := (refreshKeys ctx hc (k, w)).2.1 in
  let t := (Now (Clock k) (tick_http (tick_refresh w))).1 in
  CachedKeys k' = [] \/ not_expired_at k' t.
End KeySourceVocabulary.
End Vocabulary.

(** A result without the offset of a [base64.CorruptInputError]: where in
    the input the decoder stopped. *)
Definition forget_offset {A} (o : outcome A) : outcome A :=
  match o with
  | Err (base64_CorruptInputError _) => Err (base64_CorruptInputError 0)
  | _ => o
  end.

(** [k.HTTPClient = c]. *)
Definition with_HTTPClient `{External} {C} (k : httpKeySource C) (c : option Client)
  : httpKeySource C :=
  {| KeyURI := KeyURI k; HTTPClient := c; CachedKeys := CachedKeys k;
     ExpiryTime := ExpiryTime k; Clock := Clock k |}.

(** * Properties *)

(** ** Machine integers *)

Lemma wrap64_id z : minInt64 <= z <= maxInt64 -> wrap64 z = z.
Proof.
  unfold wrap64, minInt64, maxInt64. intros Hz.
  rewrite Z.mod_small; lia.
Qed.

Lemma wrapU64_id z : 0 <= z <= maxUint64 -> wrapU64 z = z.
Proof.
  unfold wrapU64, maxUint64. intros Hz. apply Z.mod_small. lia.
Qed.

(** ** strconv.ParseInt reads back the decimal numeral of an [int64] *)

Section ParseInt.
Import DecimalPos.Unsigned.

Lemma of_lu_rev_cons (f : Decimal.uint -> Decimal.uint) (k : N) d :
    (forall d', of_lu (f d') = (k + 10 * of_lu d')%N) ->
    (forall d' d'', Decimal.revapp (f d') d'' = Decimal.revapp d' (f d'')) ->
    of_lu (Decimal.rev (f d)) = (of_lu (Decimal.rev d) + k * 10 ^ usize d)%N.
Proof.
    intros Hf Hr. unfold Decimal.rev at 1. rewrite Hr, of_lu_revapp, Hf.
    simpl of_lu. change (Decimal.revapp d Decimal.Nil) with (Decimal.rev d). lia.
Qed.

  
Lemma loop_value_step (f : Decimal.uint -> Decimal.uint) (k : N) d n :
    (forall d', of_lu (f d') = (k + 10 * of_lu d')%N) ->
    (forall d' d'', Decimal.revapp (f d') d'' = Decimal.revapp d' (f d'')) ->
    (forall d', usize (f d') = N.succ (usize d')) ->
    loop_value (f d) n = loop_value d (n * 10 + Z.of_N k).
Proof.
    intros Hf Hr Hs. unfold loop_value.
    rewrite (of_lu_rev_cons f k d Hf Hr), Hs, N2Z.inj_succ, Z.pow_succ_r by lia.
    rewrite N2Z.inj_add, N2Z.inj_mul, N2Z.inj_pow. simpl (Z.of_N 10). lia.
Qed.

Lemma loop_value_ge d n : 0 <= n -> n <= loop_value d n.
Proof.
    intros Hn. unfold loop_value.
    assert (1 <= 10 ^ Z.of_N (usize d)) by (apply Z.pow_le_mono_r with (b := 0); lia).
    nia.
Qed.

Lemma ParseUint_loop_step c k s n :
    digit_of c = Some k -> 0 <= k <= 9 -> 0 <= n -> n * 10 + k <= maxUint64 ->
    ParseUint_loop (String c s) n = ParseUint_loop s (n * 10 + k).
Proof.
    intros Hc Hk Hn Hmax. cbn [ParseUint_loop]. rewrite Hc.
    unfold maxUint64 in *.
    destruct (Z.leb_spec (( 2 ^ 64 - 1) / 10 + 1) n) as [Hcut|Hcut].
    { exfalso. change ((2 ^ 64 - 1) / 10 + 1) with 1844674407370955162 in Hcut. lia. }
    cbv zeta. rewrite (wrapU64_id (n * 10)) by (unfold maxUint64; lia).
    rewrite (wrapU64_id (n * 10 + k)) by (unfold maxUint64; lia).
    destruct (Z.ltb_spec (n * 10 + k) (n * 10)); [lia|].
    destruct (Z.ltb_spec (2 ^ 64 - 1) (n * 10 + k)); [lia|]. reflexivity.
Qed.

Ltac numeral_digit IH D k :=
    rewrite (loop_value_step D k) in * by (intros; cbn; try reflexivity; lia);
    cbn [NilEmpty.string_of_uint];
    match goal with
    | |- ParseUint_loop (String _ (NilEmpty.string_of_uint ?d)) ?n = _ =>
        pose proof (loop_value_ge d (n * 10 + Z.of_N k) ltac:(lia));
        rewrite (ParseUint_loop_step _ (Z.of_N k)) by (first [reflexivity | cbn in *; lia]);
        apply IH; cbn in *; lia
    end.

Lemma ParseUint_loop_numeral d n :
    0 <= n -> loop_value d n <= maxUint64 ->
    ParseUint_loop (NilEmpty.string_of_uint d) n = inl (loop_value d n).
Proof.
    revert n. induction d; intros n Hn Hmax.
    - cbn. unfold loop_value. cbn. f_equal. lia.
    - numeral_digit IHd Decimal.D0 0%N.
    - numeral_digit IHd Decimal.D1 1%N.
    - numeral_digit IHd Decimal.D2 2%N.
    - numeral_digit IHd Decimal.D3 3%N.
    - numeral_digit IHd Decimal.D4 4%N.
    - numeral_digit IHd Decimal.D5 5%N.
    - numeral_digit IHd Decimal.D6 6%N.
    - numeral_digit IHd Decimal.D7 7%N.
    - numeral_digit IHd Decimal.D8 8%N.
    - numeral_digit IHd Decimal.D9 9%N.
Qed.
Lemma ParseUint_nonempty s : s <> "" -> strconv_ParseUint s = ParseUint_loop s 0.
Proof. destruct s; [congruence | reflexivity]. Qed.

Lemma string_of_uint_nonnil d :
  d <> Decimal.Nil ->
  NilZero.string_of_uint d = NilEmpty.string_of_uint d /\ NilEmpty.string_of_uint d <> "".
Proof. destruct d; intros Hd; try congruence; split; try reflexivity; cbn; congruence. Qed.

Lemma ParseUint_numeral p :
  Z.pos p <= maxUint64 ->
  strconv_ParseUint (NilZero.string_of_uint (Pos.to_uint p)) = inl (Z.pos p).
Proof.
  intros Hp. destruct (string_of_uint_nonnil _ (to_uint_nonnil p)) as [-> Hne].
  rewrite ParseUint_nonempty by assumption.
  assert (Hv : loop_value (Pos.to_uint p) 0 = Z.pos p).
  { unfold loop_value. rewrite <- of_uint_alt, of_to. reflexivity. }
  rewrite ParseUint_loop_numeral by (rewrite ?Hv; lia).
  now rewrite Hv.
Qed.

(** The numeral of a positive number starts with a digit. *)
Lemma numeral_head p :
  exists c s, NilZero.string_of_uint (Pos.to_uint p) = String c s /\
              Ascii.eqb c "-" = false /\ Ascii.eqb c "+" = false.
Proof.
  pose proof (to_uint_nonnil p) as Hd.
  destruct (Pos.to_uint p); try congruence; cbn; eexists _, _; repeat split; reflexivity.
Qed.

Lemma strconv_ParseInt_decimal z :
  minInt64 <= z <= maxInt64 -> strconv_ParseInt (decimal z) = Ok z.
Proof.
  unfold minInt64, maxInt64, decimal. intros Hz. destruct z as [|p|p].
  - reflexivity.
  - cbn [Z.to_int NilZero.string_of_int].
    pose proof (ParseUint_numeral p ltac:(unfold maxUint64; lia)) as Hu.
    destruct (numeral_head p) as (c & s & Hs & Hm & Hp). rewrite Hs in *.
    unfold strconv_ParseInt. rewrite Hm, Hp. cbn [orb negb andb]. rewrite Hu.
    destruct (Z.leb_spec (2 ^ 63) (Z.pos p)); [lia|]. cbn [andb].
    now rewrite wrap64_id by (unfold minInt64, maxInt64; lia).
  - cbn [Z.to_int NilZero.string_of_int].
    pose proof (ParseUint_numeral p ltac:(unfold maxUint64; lia)) as Hu.
    unfold strconv_ParseInt. cbn [Ascii.eqb Bool.eqb orb negb andb]. rewrite Hu.
    destruct (Z.ltb_spec (2 ^ 63) (Z.pos p)); [lia|].
    assert (Hw : wrap64 (- wrap64 (Z.pos p)) = Z.neg p).
    { change (Z.neg p) with (- Z.pos p).
      destruct (Z.eq_dec (Z.pos p) (2 ^ 63)) as [->|Hne]; [reflexivity|].
      rewrite (wrap64_id (Z.pos p)) by (unfold minInt64, maxInt64; lia).
      rewrite wrap64_id by (unfold minInt64, maxInt64; lia). reflexivity. }
    now rewrite Hw.
Qed.
End ParseInt.

(** ** findMaxAge *)

Lemma substring_all s : String.substring 0 (String.length s) s = s.
Proof. induction s; cbn; [reflexivity | now rewrite IHs]. Qed.

Lemma max_age_value ds :
  let value := ("max-age=" +:+ ds)%string in
  strings_HasPrefix value "max-age=" = true /\
  slice_from value (strings_Index value "=" + 1) = Ok ds.
Proof.
  cbn zeta. split; [destruct ds; reflexivity|].
  replace (strings_Index ("max-age=" +:+ ds) "=") with 7 by (destruct ds; reflexivity).
  assert (Hlen : String.length ("max-age=" +:+ ds) = (8 + String.length ds)%nat) by reflexivity.
  assert (Hsub : String.substring 8 (String.length ds) ("max-age=" +:+ ds) = ds)
    by (simpl; apply substring_all).
  unfold slice_from. rewrite Hlen.
  destruct (Z.leb_spec (7 + 1) (Z.of_nat (8 + String.length ds))); [|lia].
  change (Z.to_nat (7 + 1)) with 8%nat.
  replace (8 + String.length ds - 8)%nat with (String.length ds) by lia.
  rewrite Hsub. reflexivity.
Qed.

Lemma findMaxAge_range_first (values : list string) (i : nat) ds :
  (strings_TrimSpace <$> values) !! i = Some ("max-age=" +:+ ds)%string ->
  (forall (j : nat) d, (j < i)%nat -> (strings_TrimSpace <$> values) !! j = Some d ->
                       strings_HasPrefix d "max-age=" = false) ->
  findMaxAge_range values =
  try seconds := strconv_ParseInt ds in Ok (wrap64 (seconds * time_Second)).
Proof.
  revert i. induction values as [|v values IH]; intros i Hi Hfirst; [destruct i; discriminate|].
  destruct i as [|i]; cbn [findMaxAge_range].
  - cbn in Hi. injection Hi as ->.
    destruct (max_age_value ds) as [-> ->]. reflexivity.
  - rewrite (Hfirst 0%nat (strings_TrimSpace v)) by (first [lia | reflexivity]).
    apply (IH i); [exact Hi|].
    intros j d Hj Hd. apply (Hfirst (S j)); [lia | exact Hd].
Qed.

(** [findMaxAge] on a header that carries [max-age=S], for an [S] whose
    count of nanoseconds fits an [int64]. *)
Lemma findMaxAge_max_age {B} (resp : http_Response B) (S : Z) :
  max_age_directive (Header_Get (resp_Header resp) "cache-control") S ->
  -9223372036 <= S <= 9223372036 ->
  findMaxAge resp = Ok (S * time_Second).
Proof.
  intros (i & Hi & Hfirst) HS. unfold findMaxAge.
  rewrite (findMaxAge_range_first _ i (decimal S) Hi Hfirst).
  rewrite strconv_ParseInt_decimal by (unfold minInt64, maxInt64; lia).
  cbn [obind]. unfold time_Second.
  now rewrite wrap64_id by (unfold minInt64, maxInt64; lia).
Qed.

(** In the full range of [int64] the duration wraps around. *)
Lemma findMaxAge_max_age_wrap {B} (resp : http_Response B) (S : Z) :
  max_age_directive (Header_Get (resp_Header resp) "cache-control") S ->
  minInt64 <= S <= maxInt64 ->
  findMaxAge resp = Ok (wrap64 (S * time_Second)).
Proof.
  intros (i & Hi & Hfirst) HS. unfold findMaxAge.
  rewrite (findMaxAge_range_first _ i (decimal S) Hi Hfirst).
  now rewrite strconv_ParseInt_decimal by assumption.
Qed.

(** The first directive that starts with [max-age=] decides: a later one
    is not read. *)
Example findMaxAge_first_directive_decides :
  findMaxAge {| resp_Header := {[ "Cache-Control" := ["max-age=x, max-age=300"] ]};
                resp_Body := tt |}
  = Err (strconv_NumError "ParseInt" "x" ErrSyntax).
Proof. reflexivity. Qed.

(** Without a directive that starts with [max-age=] there is no duration. *)
Example findMaxAge_no_directive :
  findMaxAge {| resp_Header := {[ "Cache-Control" := ["public, no-cache"] ]};
                resp_Body := tt |}
  = Err (errors_New "Could not find expiry time from HTTP headers").
Proof. reflexivity. Qed.

(** [findMaxAge] does not panic: the slice starts at the byte after the
    first [=], which the prefix has. *)
Lemma findMaxAge_range_no_panic values : is_Panic (findMaxAge_range values) = false.
Proof.
  induction values as [|v values IH]; [reflexivity|].
  cbn [findMaxAge_range].
  destruct (strings_HasPrefix (strings_TrimSpace v) "max-age=") eqn:Hp; [|exact IH].
  unfold strings_HasPrefix in Hp. apply prefix_correct in Hp.
  cbn [String.length] in Hp.
  destruct (strings_TrimSpace v) as [|c1 [|c2 [|c3 [|c4 [|c5 [|c6 [|c7 [|c8 ds]]]]]]]];
    try discriminate.
  cbn in Hp. injection Hp as -> -> -> -> -> -> -> ->.
  destruct (max_age_value ds) as [_ Hs]. cbn zeta in Hs.
  change ("max-age=" +:+ ds)%string
    with (String "m" (String "a" (String "x" (String "-"
           (String "a" (String "g" (String "e" (String "=" ds)))))))) in Hs.
  rewrite Hs. cbn [obind].
  unfold strconv_ParseInt.
  destruct ds as [|c rest]; [reflexivity|].
  destruct (strconv_ParseUint _) as [un|[]]; try reflexivity.
  repeat match goal with |- context [if ?b then _ else _] => destruct b end; reflexivity.
Qed.

(** ** base64: decoding reads back what encoding wrote *)

Lemma byte_code_range c : 0 <= byte_code c < 256.
Proof.
  unfold byte_code. pose proof (N_ascii_bounded c). lia.
Qed.

Lemma byte_of_code z c : z mod 256 = byte_code c -> byte_of z = c.
Proof.
  unfold byte_of, byte_code. intros ->. now rewrite N2Z.id, ascii_N_embedding.
Qed.

Lemma lor_shiftl a b k :
  0 <= a -> 0 <= k -> 0 <= b < 2 ^ k -> Z.lor (Z.shiftl a k) b = a * 2 ^ k + b.
Proof.
  intros Ha Hk Hb. rewrite Z.shiftl_mul_pow2 by assumption.
  symmetry. apply Z.add_nocarry_lor. apply Z.bits_inj'. intros n Hn.
  rewrite Z.land_spec, Z.bits_0.
  destruct (Z.lt_ge_cases n k) as [Hlt|Hge].
  - rewrite Z.mul_pow2_bits_low by assumption. reflexivity.
  - destruct (Z.eq_dec b 0) as [->|Hb0]; [now rewrite Z.bits_0, Bool.andb_false_r|].
    rewrite (Z.bits_above_log2 b n), Bool.andb_false_r; [reflexivity | lia |].
    apply Z.log2_lt_pow2; [lia|]. apply Z.lt_le_trans with (2 ^ k); [lia|].
    apply Z.pow_le_mono_r; lia.
Qed.

(** The sextets of one, two and three bytes, as arithmetic. *)
Ltac sextets :=
  rewrite ?Z.shiftr_div_pow2, ?Z.shiftl_mul_pow2 by lia;
  change (Z.land ?x 3) with (Z.land x (Z.ones 2));
  change (Z.land ?x 15) with (Z.land x (Z.ones 4));
  change (Z.land ?x 63) with (Z.land x (Z.ones 6));
  rewrite ?Z.land_ones by lia;
  change (2 ^ 2) with 4; change (2 ^ 4) with 16; change (2 ^ 6) with 64.

Lemma b64_value_char v :
  0 <= v < 64 ->
  b64_value (b64_char v) = Some v /\
  (Ascii.eqb (b64_char v) "010" || Ascii.eqb (b64_char v) "013") = false.
Proof.
  intros Hv. rewrite <- (Z2Nat.id v) by lia.
  assert (Hn : (Z.to_nat v < 64)%nat) by lia. revert Hn. generalize (Z.to_nat v) as n.
  intros n Hn. do 64 (destruct n as [|n]; [split; reflexivity|]). lia.
Qed.

(** Reading one character of the alphabet. *)
Lemma base64_decode_char v rest si q :
  0 <= v < 64 ->
  base64_decode (String (b64_char v) rest) si q =
  match q with
  | [a; b; c] =>
      outcome_map
        (fun out =>
           String (byte_of (Z.lor (Z.shiftl a 2) (Z.shiftr b 4)))
             (String (byte_of (Z.lor (Z.shiftl b 4) (Z.shiftr c 2)))
               (String (byte_of (Z.lor (Z.shiftl c 6) v)) out)))
        (base64_decode rest (si + 1) [])
  | _ => base64_decode rest (si + 1) (q ++ [v])
  end.
Proof.
  intros Hv. destruct (b64_value_char v Hv) as [Hval Hnl].
  cbn [base64_decode]. now rewrite Hnl, Hval.
Qed.

Lemma string_ind3 (P : string -> Prop) :
  P "" ->
  (forall a, P (String a "")) ->
  (forall a b, P (String a (String b ""))) ->
  (forall a b c s, P s -> P (String a (String b (String c s)))) ->
  forall s, P s.
Proof.
  intros H0 H1 H2 H3 s.
  assert (H : P s /\ (forall a, P (String a s)) /\ (forall a b, P (String a (String b s)))).
  { induction s as [|c s (IH0 & IH1 & IH2)]; [now auto|].
    repeat split; [apply IH1 | intros; apply IH2 | intros; now apply H3]. }
  apply H.
Qed.

Ltac sextet_arith :=
  rewrite ?lor_shiftl by sextet_arith;
  sextets; Z.div_mod_to_equations; lia.

Lemma sextet_ranges x y z :
  0 <= x < 256 -> 0 <= y < 256 -> 0 <= z < 256 ->
  0 <= Z.shiftr x 2 < 64 /\
  0 <= Z.lor (Z.shiftl (Z.land x 3) 4) (Z.shiftr y 4) < 64 /\
  0 <= Z.lor (Z.shiftl (Z.land y 15) 2) (Z.shiftr z 6) < 64 /\
  0 <= Z.land z 63 < 64 /\
  0 <= Z.shiftl (Z.land x 3) 4 < 64 /\
  0 <= Z.shiftl (Z.land y 15) 2 < 64.
Proof.
  intros Hx Hy Hz. repeat split; sextet_arith.
Qed.

Lemma quantum_bytes x y z :
  0 <= x < 256 -> 0 <= y < 256 -> 0 <= z < 256 ->
  let v0 := Z.shiftr x 2 in
  let v1 := Z.lor (Z.shiftl (Z.land x 3) 4) (Z.shiftr y 4) in
  let v2 := Z.lor (Z.shiftl (Z.land y 15) 2) (Z.shiftr z 6) in
  let v3 := Z.land z 63 in
  Z.lor (Z.shiftl v0 2) (Z.shiftr v1 4) mod 256 = x /\
  Z.lor (Z.shiftl v1 4) (Z.shiftr v2 2) mod 256 = y /\
  Z.lor (Z.shiftl v2 6) v3 mod 256 = z.
Proof.
  intros Hx Hy Hz. cbn zeta. repeat split; sextet_arith.
Qed.

Lemma tail_bytes x y :
  0 <= x < 256 -> 0 <= y < 256 ->
  let v0 := Z.shiftr x 2 in
  let v1 := Z.lor (Z.shiftl (Z.land x 3) 4) (Z.shiftr y 4) in
  Z.lor (Z.shiftl v0 2) (Z.shiftr (Z.shiftl (Z.land x 3) 4) 4) mod 256 = x /\
  Z.lor (Z.shiftl v1 4) (Z.shiftr (Z.shiftl (Z.land y 15) 2) 2) mod 256 = y.
Proof.
  intros Hx Hy. cbn zeta. repeat split; sextet_arith.
Qed.

Lemma base64_decode_encode s si :
  base64_decode (base64_EncodeToString s) si [] = Ok s.
Proof.
  revert si. induction s as [|a|a b|a b c s IH] using string_ind3; intros si.
  - reflexivity.
  - pose proof (byte_code_range a) as Ra.
    destruct (sextet_ranges _ _ _ Ra Ra Ra) as (H0 & _ & _ & _ & H1 & _).
    destruct (tail_bytes _ _ Ra Ra) as [Ha _].
    cbn [base64_EncodeToString].
    rewrite !base64_decode_char by assumption. cbn [app base64_decode].
    cbn zeta in *. now rewrite (byte_of_code _ a Ha).
  - pose proof (byte_code_range a) as Ra. pose proof (byte_code_range b) as Rb.
    destruct (sextet_ranges _ _ _ Ra Rb Rb) as (H0 & H1 & _ & _ & _ & H2).
    destruct (tail_bytes _ _ Ra Rb) as [_ Hb].
    destruct (quantum_bytes _ _ _ Ra Rb Rb) as [Ha _].
    cbn [base64_EncodeToString].
    rewrite !base64_decode_char by assumption. cbn [app base64_decode].
    cbn zeta in *. now rewrite (byte_of_code _ a Ha), (byte_of_code _ b Hb).
  - pose proof (byte_code_range a) as Ra. pose proof (byte_code_range b) as Rb.
    pose proof (byte_code_range c) as Rc.
    destruct (sextet_ranges _ _ _ Ra Rb Rc) as (H0 & H1 & H2 & H3 & _).
    destruct (quantum_bytes _ _ _ Ra Rb Rc) as (Ha & Hb & Hc).
    cbn [base64_EncodeToString].
    rewrite !base64_decode_char by assumption. cbn [app].
    rewrite IH. cbn [outcome_map]. cbn zeta in *.
    now rewrite (byte_of_code _ a Ha), (byte_of_code _ b Hb), (byte_of_code _ c Hc).
Qed.

(** [DecodeString(EncodeToString(src)) = src]. *)
Lemma base64_DecodeString_EncodeToString s :
  base64_DecodeString (base64_EncodeToString s) = Ok s.
Proof. apply base64_decode_encode. Qed.

(** ** base64: which strings decode *)

Lemma is_Ok_outcome_map {A B} (f : A -> B) (o : outcome A) :
  is_Ok (outcome_map f o) = is_Ok o.
Proof. now destruct o. Qed.

Lemma base64_decode_ok s : forall si q,
  (length q <= 3)%nat ->
  is_Ok (base64_decode s si q) =
  forallb in_alphabet (b64_payload s)
  && negb ((length q + length (b64_payload s)) mod 4 =? 1)%nat.
Proof.
  induction s as [|ch rest IH]; intros si q Hq.
  - destruct q as [|a [|b [|c [|d q]]]]; cbn in *; try reflexivity; lia.
  - cbn [base64_decode b64_payload].
    destruct (Ascii.eqb ch "010" || Ascii.eqb ch "013"); [now apply IH|].
    cbn [forallb length]. unfold in_alphabet at 1.
    destruct (b64_value ch) as [d|]; [|reflexivity].
    cbn [andb].
    destruct q as [|a [|b [|c [|e q]]]]; cbn [length] in Hq; try lia.
    + rewrite IH by (cbn; lia). reflexivity.
    + rewrite IH by (cbn; lia). cbn [app length].
      now rewrite Nat.add_succ_r.
    + rewrite IH by (cbn; lia). cbn [app length].
      now rewrite Nat.add_succ_r.
    + rewrite is_Ok_outcome_map, IH by (cbn; lia). cbn [length].
      do 2 f_equal.
      replace (3 + S (length (b64_payload rest)))%nat
        with (length (b64_payload rest) + 1 * 4)%nat by lia.
      now rewrite Nat.Div0.mod_add.
Qed.

Lemma base64_DecodeString_ok s :
  is_Ok (base64_DecodeString s) = base64_wellformed s.
Proof. unfold base64_DecodeString. now rewrite base64_decode_ok by (cbn; lia). Qed.

(** The decoder does not panic, and its errors are [CorruptInputError]s. *)
Lemma base64_decode_error s : forall si q,
  match base64_decode s si q with
  | Ok _ => True
  | Err e => exists offset, e = base64_CorruptInputError offset
  | Panic _ => False
  end.
Proof.
  induction s as [|ch rest IH]; intros si q.
  - destruct q as [|a [|b [|c q]]]; cbn; eauto.
  - cbn [base64_decode].
    destruct (Ascii.eqb ch "010" || Ascii.eqb ch "013"); [apply IH|].
    destruct (b64_value ch) as [d|]; [|cbn; eauto].
    destruct q as [|a [|b [|c [|e q]]]]; try apply IH.
    specialize (IH (si + 1) []).
    destruct (base64_decode rest (si + 1) []); cbn; auto.
Qed.

Lemma base64_DecodeString_malformed s :
  base64_wellformed s = false ->
  exists offset, base64_DecodeString s = Err (base64_CorruptInputError offset).
Proof.
  intros Hw. rewrite <- base64_DecodeString_ok in Hw.
  pose proof (base64_decode_error s 0 []) as He. unfold base64_DecodeString in *.
  destruct (base64_decode s 0 []); try discriminate; [|contradiction].
  destruct He as [offset ->]. eauto.
Qed.

(** ** The key cache *)

Section KeyCache.
Context `{External} {C : Type} `{!clock C}.
Implicit Types (k : httpKeySource C) (w : World) (ctx : context_Context) (hc : option Client).

(** What [refreshKeys] does, stage by stage. *)
Lemma refreshKeys_eq ctx hc k w :
  refreshKeys ctx hc (k, w) =
  let k0 := with_CachedKeys k [] in
  let w1 := tick_refresh w in
  match http_NewRequest "GET" (KeyURI k) with
  | LibErr text => (Err (lib_error net_http text), (k0, w1))
  | LibOk req =>
      let w2 := tick_http w1 in
      match ctxhttp_Do (http_calls w) ctx (client_of k hc) req with
      | LibErr text => (Err (lib_error ctxhttp text), (k0, w2))
      | LibOk resp =>
          match ioutil_ReadAll (resp_Body resp) with
          | LibErr text => (Err (lib_error io_ioutil text), (k0, w2))
          | LibOk contents =>
              match parsePublicKeys (http_calls w) contents with
              | Err e => (Err e, (k0, w2))
              | Panic p => (Panic p, (k0, w2))
              | Ok newKeys =>
                  match findMaxAge resp with
                  | Err e => (Err e, (k0, w2))
                  | Panic p => (Panic p, (k0, w2))
                  | Ok maxAge =>
                      let r := Now (Clock k) w2 in
                      (Ok tt,
                       (with_ExpiryTime (with_CachedKeys k0 newKeys) (Time_Add r.1 maxAge),
                        r.2))
                  end
              end
          end
      end
  end.
Proof.
  unfold refreshKeys, bind, get_world, put_world, set_CachedKeys, get_k, lift, Do,
    Clock_Now, set_ExpiryTime, client_of.
  cbn [fst snd KeyURI HTTPClient Clock with_CachedKeys].
  destruct (http_NewRequest "GET" (KeyURI k)) as [req|text]; [|reflexivity].
  cbn [from_lib fst snd].
  destruct (ctxhttp_Do _ _ _ _) as [resp|text]; [|reflexivity].
  cbn [from_lib]. destruct (ioutil_ReadAll _) as [contents|text]; [|reflexivity].
  cbn [from_lib http_calls tick_refresh]. destruct (parsePublicKeys _ _); reflexivity.
Qed.

Lemma Keys_eq ctx hc k w :
  Keys ctx hc (k, w) =
  let c := stale_check k w in
  if c.1
  then match refreshKeys ctx hc (k, c.2) with
       | (Ok _, s') => (Ok (CachedKeys s'.1), s')
       | (Err e, s') =>
           if (length (CachedKeys s'.1) =? 0)%nat then (Err e, s')
           else (Ok (CachedKeys s'.1), s')
       | (Panic p, s') => (Panic p, s')
       end
  else (Ok (CachedKeys k), (k, c.2)).
Proof.
  unfold Keys, stale_check, hasExpired, Clock_Now, catch, throw, get_k, ret, bind.
  cbn [fst snd].
  destruct (length (CachedKeys k) =? 0)%nat; cbn [fst snd].
  - destruct (refreshKeys ctx hc (k, w)) as [[u|e|p] s']; cbn [fst snd]; try reflexivity.
    destruct (length (CachedKeys s'.1) =? 0)%nat; reflexivity.
  - destruct (Time_After _ _); cbn [fst snd]; [|reflexivity].
    destruct (refreshKeys ctx hc _) as [[u|e|p] s']; cbn [fst snd]; try reflexivity.
    destruct (length (CachedKeys s'.1) =? 0)%nat; reflexivity.
Qed.

(** A refresh that does not succeed leaves the cache empty. *)
Lemma refreshKeys_failed_empty ctx hc k w :
  is_Ok (refreshKeys ctx hc (k, w)).1 = false ->
  CachedKeys (refreshKeys ctx hc (k, w)).2.1 = [].
Proof.
  rewrite refreshKeys_eq. cbv zeta.
  repeat match goal with
         | |- context [match ?x with _ => _ end] => destruct x
         end; cbn; congruence.
Qed.

(** Every refresh is counted, and issues at most one fetch. *)
Lemma refreshKeys_world ctx hc k w :
  let w' := (refreshKeys ctx hc (k, w)).2.2 in
  refresh_calls w' = S (refresh_calls w) /\
  (http_calls w' = http_calls w \/ http_calls w' = S (http_calls w)).
Proof.
  rewrite refreshKeys_eq. cbv zeta.
  repeat match goal with
         | |- context [match ?x with _ => _ end] => destruct x
         end; cbn [fst snd]; rewrite ?Now_http, ?Now_refresh; cbn; auto.
Qed.

(** A refresh that gets as far as building its request issues exactly one
    fetch. *)
Lemma refreshKeys_fetches ctx hc k w req :
  http_NewRequest "GET" (KeyURI k) = LibOk req ->
  http_calls (refreshKeys ctx hc (k, w)).2.2 = S (http_calls w).
Proof.
  intros Hreq. rewrite refreshKeys_eq, Hreq. cbv zeta.
  repeat match goal with
         | |- context [match ?x with _ => _ end] => destruct x
         end; cbn [fst snd]; rewrite ?Now_http; reflexivity.
Qed.
End KeyCache.

(** ** parsePublicKey and parsePublicKeys *)

Section Parser.
Context `{External}.

Lemma parsePublicKey_Ok kid key pubKey :
  parsePublicKey kid key = Ok pubKey <->
  Kid pubKey = kid /\ rsa_key_of_pem key = Some (Key pubKey).
Proof.
  unfold parsePublicKey, rsa_key_of_pem.
  destruct (pem_Decode key) as [block|]; [|split; [discriminate | intros [_ ?]; discriminate]].
  destruct (x509_ParseCertificate _) as [cert|text]; cbn;
    [|split; [discriminate | intros [_ ?]; discriminate]].
  destruct (cert_PublicKey cert) as [pk|alg];
    [|split; [discriminate | intros [_ ?]; discriminate]].
  split.
  - intros [= <-]. auto.
  - destruct pubKey as [kid' pk']. cbn. intros [-> [= ->]]. reflexivity.
Qed.

(** A certificate whose key is not an RSA key. *)
Lemma parsePublicKey_not_RSA kid key block cert algorithm :
  pem_Decode key = Some block ->
  x509_ParseCertificate (pem_Bytes block) = LibOk cert ->
  cert_PublicKey cert = OtherPublicKey algorithm ->
  parsePublicKey kid key = Err (errors_New "Certificate is not a RSA key").
Proof.
  intros Hb Hc Hk. unfold parsePublicKey. rewrite Hb, Hc. cbn. now rewrite Hk.
Qed.

(** A PEM block that holds no certificate. *)
Lemma parsePublicKey_bad_certificate kid key block text :
  pem_Decode key = Some block ->
  x509_ParseCertificate (pem_Bytes block) = LibErr text ->
  parsePublicKey kid key = Err (lib_error crypto_x509 text).
Proof.
  intros Hb Hc. unfold parsePublicKey. now rewrite Hb, Hc.
Qed.

Lemma parsePublicKeys_range_all entries : forall result,
  Forall (fun e => is_Some (rsa_key_of_pem e.2)) entries ->
  exists keys,
    parsePublicKeys_range entries result = Ok (result ++ keys)%list /\
    Forall2 (fun e pubKey => Kid pubKey = e.1 /\ rsa_key_of_pem e.2 = Some (Key pubKey))
      entries keys.
Proof.
  induction entries as [|[kid key] entries IH]; intros result Hall.
  - exists []. split; [cbn; now rewrite app_nil_r | constructor].
  - inversion Hall as [|? ? [pk Hpk] Hrest]; subst. cbn in Hpk.
    destruct (IH (result ++ [{| Kid := kid; Key := pk |}])%list Hrest) as (keys & Hk & Hf).
    exists ({| Kid := kid; Key := pk |} :: keys). split.
    + cbn [parsePublicKeys_range].
      assert (Hp : parsePublicKey kid key = Ok {| Kid := kid; Key := pk |})
        by (apply parsePublicKey_Ok; auto).
      rewrite Hp. cbn [obind]. rewrite Hk. now rewrite <- app_assoc.
    + constructor; auto.
Qed.

(** What a failing [range] loop leaves: nothing of what it had parsed. *)
Lemma parsePublicKeys_range_first_absent entries kid key rest result :
  entries = (kid, key) :: rest -> pem_Decode key = None ->
  parsePublicKeys_range entries result = Panic nil_pointer_dereference.
Proof.
  intros -> Hk. cbn [parsePublicKeys_range]. unfold parsePublicKey. now rewrite Hk.
Qed.
End Parser.

(** ** Claims about the parser and the failing refresh *)

Section ParserClaims.
Context `{External}.

(** C3. For bytes that hold no PEM block, [parsePublicKey] does not return
    a format error: [pem.Decode] returns a nil block, the next statement
    reads [block.Bytes], and the call panics with a nil pointer
    dereference. ([parsePrivateKey] checks [block == nil] first;
    [parsePublicKey] does not.) *)
Theorem parsePublicKey_absent_PEM_panics kid key :
  pem_Decode key = None ->
  parsePublicKey kid key = Panic nil_pointer_dereference.
Proof.
  intros Hk. unfold parsePublicKey. now rewrite Hk.
Qed.
End ParserClaims.

Lemma parsePublicKey_absent_PEM_panics_witness :
  let E := Fake.server "max-age=300" "{k1: none}" in
  pem_Decode Fake.not_pem = None /\
  parsePublicKey "k1" Fake.not_pem = Panic nil_pointer_dereference.
Proof.
  cbv zeta. split; [reflexivity|].
  apply (@parsePublicKey_absent_PEM_panics (Fake.server "max-age=300" "{k1: none}")).
  reflexivity.
Defined.

Section FailingRefresh.
Context `{External} {C : Type} `{!clock C}.
Implicit Types (k : httpKeySource C) (w : World) (ctx : context_Context) (hc : option Client).

(** When [Keys] refreshes and the refresh returns an error, [Keys] returns
    that error and the cache is empty, whatever it held before. *)
Lemma Keys_refresh_error ctx hc k w e s' :
  (stale_check k w).1 = true ->
  refreshKeys ctx hc (k, (stale_check k w).2) = (Err e, s') ->
  Keys ctx hc (k, w) = (Err e, s') /\ CachedKeys s'.1 = [].
Proof.
  intros Hstale Hr. rewrite Keys_eq. cbv zeta. rewrite Hstale, Hr.
  pose proof (refreshKeys_failed_empty ctx hc k (stale_check k w).2) as Hempty.
  rewrite Hr in Hempty. cbn [fst snd is_Ok] in Hempty.
  rewrite (Hempty eq_refl). cbn. auto.
Qed.

(** The stages at which a refresh returns an error: building the request,
    the fetch, reading the body, decoding the document, a PEM block that
    holds no certificate or a certificate without an RSA key, and the
    max-age directive. In each case the cache is left empty. *)
Lemma refreshKeys_Err_stages ctx hc k w e s' :
  refreshKeys ctx hc (k, w) = (Err e, s') ->
  s'.1 = with_CachedKeys k [] /\
  ((exists text, http_NewRequest "GET" (KeyURI k) = LibErr text /\ e = lib_error net_http text) \/
   (exists req, http_NewRequest "GET" (KeyURI k) = LibOk req /\
     ((exists text, ctxhttp_Do (http_calls w) ctx (client_of k hc) req = LibErr text /\
                    e = lib_error ctxhttp text) \/
      (exists resp, ctxhttp_Do (http_calls w) ctx (client_of k hc) req = LibOk resp /\
        ((exists text, ioutil_ReadAll (resp_Body resp) = LibErr text /\
                       e = lib_error io_ioutil text) \/
         (exists contents, ioutil_ReadAll (resp_Body resp) = LibOk contents /\
            (parsePublicKeys (http_calls w) contents = Err e \/
             (is_Ok (parsePublicKeys (http_calls w) contents) = true /\
              findMaxAge resp = Err e)))))))).
Proof.
  rewrite refreshKeys_eq. cbv zeta.
  destruct (http_NewRequest "GET" (KeyURI k)) as [req|text] eqn:Hreq.
  2: { intros [= <- <-]. split; [reflexivity|]. left. eexists; split; reflexivity. }
  destruct (ctxhttp_Do _ _ _ _) as [resp|text] eqn:Hdo.
  2: { intros [= <- <-]. split; [reflexivity|]. right. exists req. split; [reflexivity|].
       left. eexists; split; [exact Hdo | reflexivity]. }
  destruct (ioutil_ReadAll _) as [contents|text] eqn:Hread.
  2: { intros [= <- <-]. split; [reflexivity|]. right. exists req. split; [reflexivity|].
       right. exists resp. split; [exact Hdo|]. left.
       eexists; split; [exact Hread | reflexivity]. }
  destruct (parsePublicKeys _ _) as [newKeys|e'|p] eqn:Hp; try discriminate.
  2: { intros [= <- <-]. split; [reflexivity|]. right. exists req. split; [reflexivity|].
       right. exists resp. split; [exact Hdo|]. right. exists contents.
       split; [exact Hread|]. now left. }
  destruct (findMaxAge resp) as [maxAge|e'|p] eqn:Hm; try discriminate.
  intros [= <- <-]. split; [reflexivity|]. right. exists req. split; [reflexivity|].
  right. exists resp. split; [exact Hdo|]. right. exists contents.
  split; [exact Hread|]. right. now rewrite Hp.
Qed.

(** C1. On a document with an entry that holds no PEM block, [Keys] does
    not return an error: the refresh panics while parsing that entry
    (the nil block of [parsePublicKey]). The cache is left empty, and no
    key is installed. *)
Theorem Keys_absent_PEM_panics ctx hc k w req resp contents m kid key rest :
  (stale_check k w).1 = true ->
  let w1 := (stale_check k w).2 in
  http_NewRequest "GET" (KeyURI k) = LibOk req ->
  ctxhttp_Do (http_calls w1) ctx (client_of k hc) req = LibOk resp ->
  ioutil_ReadAll (resp_Body resp) = LibOk contents ->
  json_Unmarshal contents = LibOk m ->
  map_range (http_calls w1) m = (kid, key) :: rest ->
  pem_Decode key = None ->
  Keys ctx hc (k, w) =
  (Panic nil_pointer_dereference, (with_CachedKeys k [], tick_http (tick_refresh w1))).
Proof.
  intros Hstale w1 Hreq Hdo Hread Hjson Hrange Hpem.
  rewrite Keys_eq. cbv zeta. rewrite Hstale. fold w1.
  rewrite refreshKeys_eq. cbv zeta. rewrite Hreq, Hdo, Hread.
  unfold parsePublicKeys. rewrite Hjson. cbn [from_lib obind].
  rewrite (parsePublicKeys_range_first_absent _ kid key rest [] Hrange Hpem).
  reflexivity.
Qed.
End FailingRefresh.

Lemma Keys_absent_PEM_panics_witness :
  let E := Fake.server "max-age=300" "{k1: none}" in
  let k := Fake.source E [] Time_zero 5000 in
  Keys tt None (k, Fake.w0) =
  (Panic nil_pointer_dereference,
   (with_CachedKeys k [], tick_http (tick_refresh Fake.w0))).
Proof.
  cbv zeta.
  apply (@Keys_absent_PEM_panics (Fake.server "max-age=300" "{k1: none}") mockClock _
           tt None (Fake.source _ [] Time_zero 5000) Fake.w0
           "GET https://example.test/keys"
           {| resp_Header := {[ "Cache-Control" := ["max-age=300"] ]};
              resp_Body := "{k1: none}" |}
           "{k1: none}" {[ "k1" := Fake.not_pem ]} "k1" Fake.not_pem []);
    reflexivity.
Defined.

(** ** When Keys refreshes *)

Section RefreshRule.
Context `{External} {C : Type} `{!clock C}.
Implicit Types (k : httpKeySource C) (w : World) (ctx : context_Context) (hc : option Client).

Lemma stale_check_true k w :
  (stale_check k w).1 = true <->
  CachedKeys k = [] \/ ExpiryTime k < (Now (Clock k) w).1.
Proof.
  unfold stale_check, Time_After.
  destruct (CachedKeys k) as [|pk keys]; cbn [length Nat.eqb fst].
  - split; auto.
  - rewrite Z.ltb_lt. split; [auto | intros [?|?]; [discriminate | assumption]].
Qed.

Lemma stale_check_refresh_calls k w :
  refresh_calls (stale_check k w).2 = refresh_calls w.
Proof.
  unfold stale_check. destruct (length (CachedKeys k) =? 0)%nat; [reflexivity|].
  apply Now_refresh.
Qed.

Lemma stale_check_http_calls k w :
  http_calls (stale_check k w).2 = http_calls w.
Proof.
  unfold stale_check. destruct (length (CachedKeys k) =? 0)%nat; [reflexivity|].
  apply Now_http.
Qed.

(** The number of refreshes a call of [Keys] performs: one when the check
    finds the cache stale, none otherwise. *)
Lemma Keys_refresh_calls ctx hc k w :
  refresh_calls (Keys ctx hc (k, w)).2.2 =
  if (stale_check k w).1 then S (refresh_calls w) else refresh_calls w.
Proof.
  rewrite Keys_eq. cbv zeta.
  destruct (stale_check k w).1 eqn:Hs.
  - pose proof (refreshKeys_world ctx hc k (stale_check k w).2) as [Hr _].
    rewrite stale_check_refresh_calls in Hr.
    destruct (refreshKeys ctx hc (k, (stale_check k w).2)) as [[u|e|p] s']; cbn [fst snd] in *;
      try exact Hr.
    destruct (length (CachedKeys s'.1) =? 0)%nat; exact Hr.
  - cbn [fst snd]. apply stale_check_refresh_calls.
Qed.

(** C2 (amended). A call of [Keys] performs a refresh if and only if the
    cached snapshot is empty or its expiry instant is strictly before the
    current clock reading ([hasExpired] is [Now().After(ExpiryTime)]); a
    call made exactly at the expiry instant of a non-empty snapshot does
    not refresh. A call performs at most one refresh. *)
Theorem Keys_refreshes_iff_empty_or_past_expiry ctx hc k w :
  (refreshed ctx hc k w <->
   CachedKeys k = [] \/ ExpiryTime k < (Now (Clock k) w).1) /\
  (CachedKeys k <> [] -> ExpiryTime k = (Now (Clock k) w).1 -> ~ refreshed ctx hc k w) /\
  (refresh_calls (Keys ctx hc (k, w)).2.2 = refresh_calls w \/ refreshed ctx hc k w).
Proof.
  unfold refreshed. rewrite Keys_refresh_calls, <- stale_check_true.
  destruct (stale_check k w).1 eqn:Hs.
  - repeat split; auto.
    intros Hk Ht. exfalso.
    apply stale_check_true in Hs as [?|?]; [contradiction | lia].
  - repeat split; try (intros; lia); discriminate.
Qed.
End RefreshRule.

Lemma Keys_refreshes_iff_empty_or_past_expiry_witness :
  let E := Fake.server "max-age=300" "{k1: rsa}" in
  let keys := [{| Kid := "k1"; Key := Fake.rsa_key |}] in
  refreshed tt None (Fake.source E keys 5000 5001) Fake.w0 /\
  ~ refreshed tt None (Fake.source E keys 5000 5000) Fake.w0.
Proof.
  cbv zeta.
  pose (E := Fake.server "max-age=300" "{k1: rsa}").
  pose (keys := [{| Kid := "k1"; Key := Fake.rsa_key |}]).
  split.
  - apply (proj1 (@Keys_refreshes_iff_empty_or_past_expiry E mockClock _ tt None
                    (Fake.source E keys 5000 5001) Fake.w0)).
    right. cbn. lia.
  - apply (proj1 (proj2 (@Keys_refreshes_iff_empty_or_past_expiry E mockClock _ tt None
                           (Fake.source E keys 5000 5000) Fake.w0))).
    + discriminate.
    + reflexivity.
Defined.

(** C2, as stated, fails: a key source whose snapshot holds a key and
    expires at instant 5000, asked at instant 5000, does not refresh. *)
Lemma Keys_no_refresh_at_expiry_instant :
  let E := Fake.server "max-age=300" "{k1: rsa}" in
  let k := Fake.source E [{| Kid := "k1"; Key := Fake.rsa_key |}] 5000 5000 in
  ~ refresh_rule_at_or_before tt None k Fake.w0.
Proof.
  cbv zeta. unfold refresh_rule_at_or_before, refreshed. intros [_ Hrule].
  assert (Hat : ExpiryTime (Fake.source (Fake.server "max-age=300" "{k1: rsa}")
                               [{| Kid := "k1"; Key := Fake.rsa_key |}] 5000 5000) <= 5000)
    by (cbn; lia).
  specialize (Hrule (or_intror Hat)). vm_compute in Hrule. discriminate.
Qed.

(** ** The successful refresh *)

Section Refresh.
Context `{External} {C : Type} `{!clock C}.
Implicit Types (k : httpKeySource C) (w : World) (ctx : context_Context) (hc : option Client).

(** When every certificate of the document parses, [parsePublicKeys]
    returns one key per entry of the document: the RSA key of its
    certificate under its key ID. *)
Lemma parsePublicKeys_all seed contents (m : gmap string string) :
  json_Unmarshal contents = LibOk m ->
  map_range seed m ≡ₚ map_to_list m ->
  (forall kid pem, m !! kid = Some pem -> is_Some (rsa_key_of_pem pem)) ->
  exists keys,
    parsePublicKeys seed contents = Ok keys /\
    length keys = size m /\
    forall kid pk,
      {| Kid := kid; Key := pk |} ∈ keys <->
      exists pem, m !! kid = Some pem /\ rsa_key_of_pem pem = Some pk.
Proof.
  intros Hjson Hperm Hall.
  assert (Hin : forall kid pem, (kid, pem) ∈ map_range seed m <-> m !! kid = Some pem).
  { intros kid pem. rewrite Hperm. apply elem_of_map_to_list. }
  destruct (parsePublicKeys_range_all (map_range seed m) []) as (keys & Hk & Hf).
  { apply Forall_forall. intros [kid pem] He. apply (Hall kid). now apply Hin. }
  exists keys. unfold parsePublicKeys. rewrite Hjson. cbn [from_lib obind].
  split; [exact Hk|]. split.
  - rewrite <- (Forall2_length _ _ _ Hf), Hperm. apply length_map_to_list.
  - intros kid pk. split.
    + intros Hpk. apply list_elem_of_lookup_1 in Hpk as [i Hi].
      destruct (Forall2_lookup_r _ _ _ _ _ Hf Hi) as ([kid' pem] & He & Hkid & Hkey).
      cbn in Hkid, Hkey. subst kid'. exists pem. split; [|exact Hkey].
      apply Hin. eapply list_elem_of_lookup_2, He.
    + intros (pem & Hm & Hkey). apply Hin in Hm.
      apply list_elem_of_lookup_1 in Hm as [i Hi].
      destruct (Forall2_lookup_l _ _ _ _ _ Hf Hi) as ([kid' pk'] & Hpk & Hkid & Hkey').
      cbn in Hkid, Hkey'. subst kid'. rewrite Hkey in Hkey'. injection Hkey' as <-.
      eapply list_elem_of_lookup_2, Hpk.
Qed.

(** A refresh that succeeds at every stage installs the parsed keys and
    the expiry: the clock reading taken after the parse, plus the max-age. *)
Lemma refreshKeys_Ok ctx hc k w req resp contents newKeys maxAge :
  http_NewRequest "GET" (KeyURI k) = LibOk req ->
  ctxhttp_Do (http_calls w) ctx (client_of k hc) req = LibOk resp ->
  ioutil_ReadAll (resp_Body resp) = LibOk contents ->
  parsePublicKeys (http_calls w) contents = Ok newKeys ->
  findMaxAge resp = Ok maxAge ->
  let r := Now (Clock k) (tick_http (tick_refresh w)) in
  refreshKeys ctx hc (k, w) =
  (Ok tt, (with_ExpiryTime (with_CachedKeys k newKeys) (r.1 + maxAge), r.2)).
Proof.
  intros Hreq Hdo Hread Hparse Hage. rewrite refreshKeys_eq. cbv zeta.
  now rewrite Hreq, Hdo, Hread, Hparse, Hage.
Qed.

(** Conversely, a refresh that returns no error went through every stage. *)
Lemma refreshKeys_Ok_inv ctx hc k w s' :
  refreshKeys ctx hc (k, w) = (Ok tt, s') ->
  exists req resp contents newKeys maxAge,
    http_NewRequest "GET" (KeyURI k) = LibOk req /\
    ctxhttp_Do (http_calls w) ctx (client_of k hc) req = LibOk resp /\
    ioutil_ReadAll (resp_Body resp) = LibOk contents /\
    parsePublicKeys (http_calls w) contents = Ok newKeys /\
    findMaxAge resp = Ok maxAge /\
    let r := Now (Clock k) (tick_http (tick_refresh w)) in
    s' = (with_ExpiryTime (with_CachedKeys k newKeys) (r.1 + maxAge), r.2).
Proof.
  rewrite refreshKeys_eq. cbv zeta.
  destruct (http_NewRequest "GET" (KeyURI k)) as [req|text] eqn:Hreq; [|discriminate].
  destruct (ctxhttp_Do _ _ _ _) as [resp|text] eqn:Hdo; [|discriminate].
  destruct (ioutil_ReadAll _) as [contents|text] eqn:Hread; [|discriminate].
  destruct (parsePublicKeys _ _) as [newKeys|e'|p] eqn:Hp; try discriminate.
  destruct (findMaxAge resp) as [maxAge|e'|p] eqn:Hm; try discriminate.
  intros [= <-]. exists req, resp, contents, newKeys, maxAge. repeat split; auto.
Qed.

(** A call of [Keys] on a snapshot that holds keys and has not expired
    returns the snapshot, leaves the key source as it is, and issues no
    fetch; it only reads the clock. *)
Lemma Keys_fresh ctx hc k w :
  CachedKeys k <> [] -> (Now (Clock k) w).1 <= ExpiryTime k ->
  Keys ctx hc (k, w) = (Ok (CachedKeys k), (k, (Now (Clock k) w).2)) /\
  http_calls (Keys ctx hc (k, w)).2.2 = http_calls w.
Proof.
  intros Hk Ht.
  assert (Hs : stale_check k w = (false, (Now (Clock k) w).2)).
  { unfold stale_check, Time_After. destruct (CachedKeys k); [contradiction|].
    cbn [length Nat.eqb]. destruct (Z.ltb_spec (ExpiryTime k) (Now (Clock k) w).1); [lia|].
    reflexivity. }
  rewrite Keys_eq. cbv zeta. rewrite Hs. cbn [fst snd]. split; [reflexivity|].
  apply Now_http.
Qed.

(** C4 (amended). For a fetched key document in which every entry gives
    an RSA key (its PEM block decodes, its certificate parses and the key
    of the certificate is an RSA key), and a response in which the first
    value of the Cache-Control header has [max-age=S] as its first
    directive that starts with [max-age=], [S] written as a decimal
    numeral between -9223372036 and 9223372036 (so that [S] seconds fit a
    [time.Duration]), the refresh installs one key for every entry of the
    document (the [range] loop visits each entry once) and sets the expiry
    to the clock reading of the refresh plus [S] seconds; a later call of
    [Keys] on that snapshot, when it holds a key and the clock reads
    before the expiry, returns the snapshot and issues no fetch. *)
Theorem refresh_installs_keys_and_expiry
    ctx hc k w req resp contents (m : gmap string string) (S : Z) :
  http_NewRequest "GET" (KeyURI k) = LibOk req ->
  ctxhttp_Do (http_calls w) ctx (client_of k hc) req = LibOk resp ->
  ioutil_ReadAll (resp_Body resp) = LibOk contents ->
  json_Unmarshal contents = LibOk m ->
  map_range (http_calls w) m ≡ₚ map_to_list m ->
  (forall kid pem, m !! kid = Some pem -> is_Some (rsa_key_of_pem pem)) ->
  max_age_directive (Header_Get (resp_Header resp) "cache-control") S ->
  -9223372036 <= S <= 9223372036 ->
  let r := Now (Clock k) (tick_http (tick_refresh w)) in
  exists keys k',
    refreshKeys ctx hc (k, w) = (Ok tt, (k', r.2)) /\
    CachedKeys k' = keys /\
    length keys = size m /\
    (forall kid pk,
        {| Kid := kid; Key := pk |} ∈ keys <->
        exists pem, m !! kid = Some pem /\ rsa_key_of_pem pem = Some pk) /\
    ExpiryTime k' = r.1 + S * time_Second /\
    forall ctx' hc' k2 w2,
      CachedKeys k2 = keys -> ExpiryTime k2 = ExpiryTime k' ->
      keys <> [] -> (Now (Clock k2) w2).1 < ExpiryTime k' ->
      Keys ctx' hc' (k2, w2) = (Ok keys, (k2, (Now (Clock k2) w2).2)) /\
      http_calls (Keys ctx' hc' (k2, w2)).2.2 = http_calls w2.
Proof.
  intros Hreq Hdo Hread Hjson Hperm Hall Hcc HS r.
  destruct (parsePublicKeys_all _ _ _ Hjson Hperm Hall) as (keys & Hparse & Hlen & Hmem).
  pose proof (findMaxAge_max_age resp S Hcc HS) as Hage.
  exists keys, (with_ExpiryTime (with_CachedKeys k keys) (r.1 + S * time_Second)).
  split; [exact (refreshKeys_Ok ctx hc k w _ _ _ _ _ Hreq Hdo Hread Hparse Hage)|].
  split; [reflexivity|]. split; [exact Hlen|]. split; [exact Hmem|].
  split; [reflexivity|].
  intros ctx' hc' k2 w2 Hk2 He2 Hne Hlt. rewrite <- He2 in Hlt.
  destruct (Keys_fresh ctx' hc' k2 w2) as [Hk Hfetch]; [congruence | lia |].
  split; [|exact Hfetch]. rewrite Hk. congruence.
Qed.
End Refresh.

Lemma refresh_installs_keys_and_expiry_witness :
  let E := Fake.server "public, max-age=300" "{k1: rsa}" in
  let k := Fake.source E [] Time_zero 5000 in
  exists k',
    refreshKeys tt None (k, Fake.w0) = (Ok tt, (k', tick_http (tick_refresh Fake.w0))) /\
    length (CachedKeys k') = 1%nat /\
    {| Kid := "k1"; Key := Fake.rsa_key |} ∈ CachedKeys k' /\
    ExpiryTime k' = 5000 + 300 * time_Second.
Proof.
  cbv zeta.
  destruct (@refresh_installs_keys_and_expiry
              (Fake.server "public, max-age=300" "{k1: rsa}") mockClock _
              tt None (Fake.source _ [] Time_zero 5000) Fake.w0
              "GET https://example.test/keys"
              {| resp_Header := {[ "Cache-Control" := ["public, max-age=300"] ]};
                 resp_Body := "{k1: rsa}" |}
              "{k1: rsa}" {[ "k1" := Fake.cert_rsa ]} 300)
    as (keys & k' & Hrefresh & Hkeys & Hlen & Hmem & Hexp & _).
  - reflexivity.
  - reflexivity.
  - reflexivity.
  - reflexivity.
  - reflexivity.
  - intros kid pem Hm. apply lookup_singleton_Some in Hm as [_ <-].
    exists Fake.rsa_key. reflexivity.
  - exists 1%nat. split; [reflexivity|].
    intros [|j] d Hj Hd; [injection Hd as <-; reflexivity | lia].
  - lia.
  - exists k'. subst keys. split; [exact Hrefresh|]. split; [exact Hlen|].
    split; [|exact Hexp].
    apply Hmem. exists Fake.cert_rsa. split; reflexivity.
Defined.

(** A max-age whose count of nanoseconds does not fit an [int64]: the
    header [max-age=9223372037] is accepted, the product with
    [time.Second] wraps around, and the expiry installed is not the clock
    reading plus 9223372037 seconds: it lies before the clock reading. *)
Lemma refresh_expiry_wraps_for_large_max_age :
  let E := Fake.server "max-age=9223372037" "{k1: rsa}" in
  let k := Fake.source E [] Time_zero 5000 in
  let result := refreshKeys tt None (k, Fake.w0) in
  max_age_directive "max-age=9223372037" 9223372037 /\
  rsa_key_of_pem Fake.cert_rsa = Some Fake.rsa_key /\
  result.1 = Ok tt /\
  CachedKeys result.2.1 = [{| Kid := "k1"; Key := Fake.rsa_key |}] /\
  ExpiryTime result.2.1 <> 5000 + 9223372037 * time_Second /\
  ExpiryTime result.2.1 < 5000.
Proof.
  cbv zeta. split.
  { exists 0%nat. split; [reflexivity | intros j d Hj; lia]. }
  split; [reflexivity|]. split; [reflexivity|]. split; [reflexivity|].
  split; vm_compute; [discriminate | reflexivity].
Qed.

(** C4, as stated, fails on each point the amended statement makes
    precise. The header [max-age=9223372037] is accepted and the expiry
    wraps around. A document whose certificate parses and holds an ECDSA
    key is refused as a whole. A max-age in the second Cache-Control line
    of the response is not seen, and neither is one that follows a
    max-age directive that does not parse. *)
Lemma refresh_installs_keys_and_expiry_fails_as_worded :
  (let E := Fake.server "max-age=9223372037" "{k1: rsa}" in
   let result := refreshKeys tt None (Fake.source E [] Time_zero 5000, Fake.w0) in
   result.1 = Ok tt /\
   CachedKeys result.2.1 = [{| Kid := "k1"; Key := Fake.rsa_key |}] /\
   ExpiryTime result.2.1 <> 5000 + 9223372037 * time_Second /\
   ExpiryTime result.2.1 < 5000) /\
  (let E := Fake.server "max-age=300" "{k1: ec}" in
   let result := refreshKeys tt None (Fake.source E [] Time_zero 5000, Fake.w0) in
   pem_Decode Fake.cert_ec = Some {| pem_Type := "CERTIFICATE"; pem_Bytes := "EC" |} /\
   x509_ParseCertificate "EC"
   = LibOk {| cert_Raw := "EC"; cert_PublicKey := OtherPublicKey "ECDSA" |} /\
   result.1 = Err (errors_New "Certificate is not a RSA key") /\
   CachedKeys result.2.1 = []) /\
  (let E := Fake.external
              (fun _ => LibOk {| resp_Header :=
                                   {[ "Cache-Control" := ["no-cache"; "max-age=300"] ]};
                                 resp_Body := "{k1: rsa}" |}) in
   let result := refreshKeys tt None (Fake.source E [] Time_zero 5000, Fake.w0) in
   result.1 = Err (errors_New "Could not find expiry time from HTTP headers") /\
   CachedKeys result.2.1 = []) /\
  (let E := Fake.server "max-age=x, max-age=300" "{k1: rsa}" in
   let result := refreshKeys tt None (Fake.source E [] Time_zero 5000, Fake.w0) in
   result.1 = Err (strconv_NumError "ParseInt" "x" ErrSyntax) /\
   CachedKeys result.2.1 = []).
Proof.
  cbv zeta. split; [|split; [|split]].
  - destruct refresh_expiry_wraps_for_large_max_age as (_ & _ & Hok & Hkeys & Hne & Hlt).
    auto.
  - repeat split; reflexivity.
  - split; reflexivity.
  - split; reflexivity.
Qed.

(** ** The installed snapshot and its expiry *)

Lemma findMaxAge_range_seconds values :
  findMaxAge_range values =
  try seconds := max_age_seconds_range values in Ok (wrap64 (seconds * time_Second)).
Proof.
  induction values as [|v values IH]; [reflexivity|].
  cbn [findMaxAge_range max_age_seconds_range].
  destruct (strings_HasPrefix _ _); [|exact IH].
  destruct (slice_from _ _); reflexivity.
Qed.

Lemma findMaxAge_seconds {B} (resp : http_Response B) :
  findMaxAge resp =
  try seconds := max_age_seconds (Header_Get (resp_Header resp) "cache-control") in
  Ok (wrap64 (seconds * time_Second)).
Proof. apply findMaxAge_range_seconds. Qed.

Section Snapshot.
Context `{External} {C : Type} `{!clock C}.
Implicit Types (k : httpKeySource C) (w : World) (ctx : context_Context) (hc : option Client).

(** C6 (amended). A snapshot installed by a successful refresh has as
    its expiry the clock reading of the installation plus the duration
    [findMaxAge] computed from the header (the [int64] product of the
    max-age seconds and [time.Second]); it was not expired at that reading
    exactly when that duration is not negative. So the invariant (empty,
    or not expired when installed) holds exactly for the snapshots that
    are empty or installed with a duration that is not negative. For
    [max-age=S] with [S] between -9223372036 and 9223372036 the duration
    is [S] seconds, and the snapshot was not expired exactly when [S] is
    not negative. *)
Theorem installed_snapshot_not_expired ctx hc k w k' w' req resp maxAge :
  refreshKeys ctx hc (k, w) = (Ok tt, (k', w')) ->
  http_NewRequest "GET" (KeyURI k) = LibOk req ->
  ctxhttp_Do (http_calls w) ctx (client_of k hc) req = LibOk resp ->
  findMaxAge resp = Ok maxAge ->
  let t := (Now (Clock k) (tick_http (tick_refresh w))).1 in
  ExpiryTime k' = t + maxAge /\
  (not_expired_at k' t <-> 0 <= maxAge) /\
  (snapshot_valid_when_installed ctx hc k w <-> CachedKeys k' = [] \/ 0 <= maxAge) /\
  (forall S : Z,
      max_age_seconds (Header_Get (resp_Header resp) "cache-control") = Ok S ->
      -9223372036 <= S <= 9223372036 ->
      maxAge = S * time_Second /\ (not_expired_at k' t <-> 0 <= S)).
Proof.
  intros Hr Hreq Hdo Hage t.
  destruct (refreshKeys_Ok_inv _ _ _ _ _ Hr)
    as (req' & resp' & contents & newKeys & maxAge' & Hreq' & Hdo' & _ & _ & Hage' & Hs').
  rewrite Hreq in Hreq'. injection Hreq' as <-.
  rewrite Hdo in Hdo'. injection Hdo' as <-.
  rewrite Hage in Hage'. injection Hage' as <-.
  cbv zeta in Hs'. injection Hs' as -> ->.
  cbn [ExpiryTime with_ExpiryTime]. fold t.
  assert (Hne : not_expired_at (with_ExpiryTime (with_CachedKeys k newKeys) (t + maxAge)) t
                <-> 0 <= maxAge).
  { unfold not_expired_at, Time_After. cbn [ExpiryTime with_ExpiryTime].
    rewrite Z.ltb_ge. lia. }
  split; [reflexivity|]. split; [exact Hne|]. split.
  - unfold snapshot_valid_when_installed. rewrite Hr. cbn [fst snd]. fold t.
    now rewrite Hne.
  - intros S HS Hrange. rewrite findMaxAge_seconds, HS in Hage. cbn [obind] in Hage.
    unfold time_Second in *.
    rewrite wrap64_id in Hage by (unfold minInt64, maxInt64; lia).
    injection Hage as <-. split; [reflexivity|]. rewrite Hne. lia.
Qed.

(** A header that carries [max-age=S] is read as [S] seconds. *)
Lemma max_age_seconds_directive cc (S : Z) :
  max_age_directive cc S -> minInt64 <= S <= maxInt64 -> max_age_seconds cc = Ok S.
Proof.
  intros (i & Hi & Hfirst) HS. unfold max_age_seconds.
  revert i Hi Hfirst. unfold directives.
  induction (strings_Split cc ",") as [|v values IH]; intros i Hi Hfirst;
    [destruct i; discriminate|].
  destruct i as [|i]; cbn [max_age_seconds_range].
  - cbn in Hi. injection Hi as ->.
    destruct (max_age_value (decimal S)) as [-> ->]. cbn [obind].
    now apply strconv_ParseInt_decimal.
  - rewrite (Hfirst 0%nat (strings_TrimSpace v)) by (first [lia | reflexivity]).
    apply (IH i); [exact Hi|].
    intros j d Hj Hd. apply (Hfirst (Datatypes.S j)); [lia | exact Hd].
Qed.
End Snapshot.

Lemma installed_snapshot_not_expired_witness :
  let E := Fake.server "public, max-age=300" "{k1: rsa}" in
  let k := Fake.source E [] Time_zero 5000 in
  let k' := (refreshKeys tt None (k, Fake.w0)).2.1 in
  ExpiryTime k' = 5000 + 300 * time_Second /\
  not_expired_at k' 5000 /\
  snapshot_valid_when_installed tt None k Fake.w0.
Proof.
  cbv zeta.
  destruct (@installed_snapshot_not_expired
              (Fake.server "public, max-age=300" "{k1: rsa}") mockClock _
              tt None (Fake.source _ [] Time_zero 5000) Fake.w0
              (@refreshKeys (Fake.server "public, max-age=300" "{k1: rsa}") mockClock _
                 tt None (Fake.source _ [] Time_zero 5000, Fake.w0)).2.1
              (tick_http (tick_refresh Fake.w0))
              "GET https://example.test/keys"
              {| resp_Header := {[ "Cache-Control" := ["public, max-age=300"] ]};
                 resp_Body := "{k1: rsa}" |} (300 * time_Second))
    as (Hexp & Hne & Hvalid & _); [reflexivity..|].
  assert (Hpos : 0 <= 300 * time_Second) by (unfold time_Second; lia).
  split; [exact Hexp|]. split; [now apply Hne | apply Hvalid; right; exact Hpos].
Defined.

(** C6, as stated, fails: the header [max-age=-1] is accepted by a
    successful refresh, and the snapshot it installs holds a key and is
    already expired at the clock reading of its installation. *)
Lemma negative_max_age_installs_expired_snapshot :
  let E := Fake.server "max-age=-1" "{k1: rsa}" in
  let k := Fake.source E [] Time_zero 5000 in
  (refreshKeys tt None (k, Fake.w0)).1 = Ok tt /\
  ~ snapshot_valid_when_installed tt None k Fake.w0.
Proof.
  cbv zeta. split; [reflexivity|].
  unfold snapshot_valid_when_installed, not_expired_at. cbv zeta.
  intros [Hempty|Hfresh]; vm_compute in *; discriminate.
Qed.

(** A negative max-age does not always give a negative duration: the
    product of [max-age=-9223372037] wraps around to a positive one, and
    the snapshot installed is not expired. *)
Example large_negative_max_age_wraps :
  let E := Fake.server "max-age=-9223372037" "{k1: rsa}" in
  let k := Fake.source E [] Time_zero 5000 in
  (refreshKeys tt None (k, Fake.w0)).1 = Ok tt /\
  ExpiryTime (refreshKeys tt None (k, Fake.w0)).2.1 = 5000 + 9223372036709551616 /\
  snapshot_valid_when_installed tt None k Fake.w0.
Proof.
  cbv zeta. split; [reflexivity|]. split; [reflexivity|].
  right. reflexivity.
Qed.

(** ** The empty key document *)

Section EmptyDocument.
Context `{External} {C : Type} `{!clock C}.
Implicit Types (k : httpKeySource C) (w : World) (ctx : context_Context) (hc : option Client).

(** When [Keys] refreshes, it leaves the key source and the world of the
    refresh. *)
Lemma Keys_stale_state ctx hc k w :
  (stale_check k w).1 = true ->
  (Keys ctx hc (k, w)).2 = (refreshKeys ctx hc (k, (stale_check k w).2)).2.
Proof.
  intros Hs. rewrite Keys_eq. cbv zeta. rewrite Hs.
  destruct (refreshKeys ctx hc (k, (stale_check k w).2)) as [[u|e|p] s']; try reflexivity.
  cbn [snd]. destruct (length (CachedKeys s'.1) =? 0)%nat; reflexivity.
Qed.

(** A call of [Keys] on an empty snapshot refreshes, whatever the clock
    reads, and fetches the document when the request can be built. *)
Lemma Keys_empty_refetches ctx hc k w req :
  CachedKeys k = [] ->
  http_NewRequest "GET" (KeyURI k) = LibOk req ->
  refreshed ctx hc k w /\ http_calls (Keys ctx hc (k, w)).2.2 = S (http_calls w).
Proof.
  intros Hk Hreq.
  assert (Hs : stale_check k w = (true, w)) by (unfold stale_check; now rewrite Hk).
  split.
  - unfold refreshed. now rewrite Keys_refresh_calls, Hs.
  - rewrite Keys_stale_state by now rewrite Hs. rewrite Hs. cbn [snd].
    now apply refreshKeys_fetches with (req := req).
Qed.

(** C10. When the fetched key document is the empty JSON object and the
    response has a valid max-age, [Keys] returns an empty list of keys and
    no error, and records the expiry; the snapshot being empty, every later
    call of [Keys] refreshes and fetches the document again, whatever the
    clock reads. *)
Theorem empty_document_is_refetched ctx hc k w req resp contents maxAge :
  (stale_check k w).1 = true ->
  let w1 := (stale_check k w).2 in
  http_NewRequest "GET" (KeyURI k) = LibOk req ->
  ctxhttp_Do (http_calls w1) ctx (client_of k hc) req = LibOk resp ->
  ioutil_ReadAll (resp_Body resp) = LibOk contents ->
  json_Unmarshal contents = LibOk ∅ ->
  map_range (http_calls w1) ∅ ≡ₚ map_to_list (∅ : gmap string string) ->
  findMaxAge resp = Ok maxAge ->
  let r := Now (Clock k) (tick_http (tick_refresh w1)) in
  exists k',
    Keys ctx hc (k, w) = (Ok [], (k', r.2)) /\
    CachedKeys k' = [] /\
    ExpiryTime k' = r.1 + maxAge /\
    http_calls r.2 = S (http_calls w) /\
    forall ctx2 hc2 k2 w2,
      CachedKeys k2 = CachedKeys k' -> KeyURI k2 = KeyURI k ->
      refreshed ctx2 hc2 k2 w2 /\
      http_calls (Keys ctx2 hc2 (k2, w2)).2.2 = S (http_calls w2).
Proof.
  intros Hs w1 Hreq Hdo Hread Hjson Hperm Hage r.
  assert (Hparse : parsePublicKeys (http_calls w1) contents = Ok []).
  { unfold parsePublicKeys. rewrite Hjson. cbn [from_lib obind].
    rewrite map_to_list_empty in Hperm. apply Permutation_nil_r in Hperm.
    now rewrite Hperm. }
  pose proof (refreshKeys_Ok ctx hc k w1 _ _ _ _ _ Hreq Hdo Hread Hparse Hage) as Hr.
  cbv zeta in Hr. fold r in Hr.
  exists (with_ExpiryTime (with_CachedKeys k []) (r.1 + maxAge)).
  split; [|split; [reflexivity|split; [reflexivity|split]]].
  - rewrite Keys_eq. cbv zeta. rewrite Hs. fold w1. now rewrite Hr.
  - unfold r. rewrite Now_http. cbn [http_calls tick_http tick_refresh].
    unfold w1. now rewrite stale_check_http_calls.
  - intros ctx2 hc2 k2 w2 Hk2 Huri. cbn [CachedKeys with_ExpiryTime with_CachedKeys] in Hk2.
    apply Keys_empty_refetches with (req := req); [exact Hk2 | now rewrite Huri].
Qed.
End EmptyDocument.

Lemma empty_document_is_refetched_witness :
  let E := Fake.server "max-age=300" "{}" in
  let k := Fake.source E [] Time_zero 5000 in
  exists k',
    Keys tt None (k, Fake.w0) = (Ok [], (k', tick_http (tick_refresh Fake.w0))) /\
    CachedKeys k' = [] /\
    ExpiryTime k' = 5000 + 300 * time_Second /\
    http_calls (Keys tt None (k', tick_http (tick_refresh Fake.w0))).2.2 = 2%nat.
Proof.
  cbv zeta.
  destruct (@empty_document_is_refetched
              (Fake.server "max-age=300" "{}") mockClock _
              tt None (Fake.source _ [] Time_zero 5000) Fake.w0
              "GET https://example.test/keys"
              {| resp_Header := {[ "Cache-Control" := ["max-age=300"] ]};
                 resp_Body := "{}" |}
              "{}" (300 * time_Second)
              eq_refl eq_refl eq_refl eq_refl eq_refl
              (Permutation_refl _) eq_refl)
    as (k' & Hkeys & Hempty & Hexp & _ & Hagain).
  exists k'. split; [exact Hkeys|]. split; [exact Hempty|]. split; [exact Hexp|].
  destruct (Hagain tt None k' (tick_http (tick_refresh Fake.w0)) eq_refl) as [_ Hfetch].
  - pose proof (f_equal (fun r => KeyURI r.2.1) Hkeys) as Huri.
    cbn [fst snd] in Huri. rewrite <- Huri. reflexivity.
  - exact Hfetch.
Defined.

(** ** verifySignature and the signer *)

Section Signatures.
Context `{External}.

Lemma verifySignature_three p0 p1 p2 rest k :
  verifySignature (p0 :: p1 :: p2 :: rest) k =
  try signature := base64_DecodeString p2 in
  rsa_verdict (rsa_VerifyPKCS1v15 (Key k) crypto_SHA256
                 (sha256_Sum (signing_input p0 p1)) signature).
Proof. reflexivity. Qed.

(** The decoder accepts [s] exactly when [s] without its line feeds and
    carriage returns is base64url text; base64url text itself is accepted. *)
Lemma base64_wellformed_payload s :
  base64_wellformed s = base64url_text (string_of_list_ascii (b64_payload s)).
Proof.
  unfold base64_wellformed, base64url_text.
  now rewrite list_ascii_of_string_of_list_ascii.
Qed.

Lemma base64url_text_wellformed s :
  base64url_text s = true -> base64_wellformed s = true.
Proof.
  unfold base64url_text, base64_wellformed. intros Ht.
  apply andb_prop in Ht as [Hall Hlen].
  assert (Hp : b64_payload s = list_ascii_of_string s).
  { clear Hlen. induction s as [|c s IH]; [reflexivity|].
    cbn [list_ascii_of_string forallb] in Hall. apply andb_prop in Hall as [Hc Hall].
    cbn [b64_payload list_ascii_of_string].
    destruct (Ascii.eqb c "010" || Ascii.eqb c "013") eqn:Hnl.
    - apply orb_prop in Hnl as [Hnl|Hnl]; apply Ascii.eqb_eq in Hnl; subst c; discriminate.
    - now rewrite IH. }
  rewrite Hp, Hall, Hlen. reflexivity.
Qed.

(** C5 (amended). On the three segments of a token and an RSA public key,
    [verifySignature] checks the RSA PKCS#1v1.5 signature decoded from the
    third segment against the SHA-256 digest of the first segment, a dot
    and the second segment. It returns a decode error
    ([base64.CorruptInputError]) exactly when the third segment, once its
    line feeds and carriage returns are taken out, is not unpadded
    base64url text ([base64_wellformed], see [base64_wellformed_payload]):
    line breaks in the segment are skipped, not rejected. Otherwise it
    returns the error of the RSA check when the signature does not match
    that digest (so also for a payload changed after signing, when the
    signature does not match the digest of the changed input), and nil
    when the signature matches. *)
Theorem verifySignature_checks_signature p0 p1 p2 k :
  (base64_wellformed p2 = false ->
   exists offset, verifySignature [p0; p1; p2] k = Err (base64_CorruptInputError offset)) /\
  (base64_wellformed p2 = true ->
   exists signature,
     base64_DecodeString p2 = Ok signature /\
     let verdict := rsa_VerifyPKCS1v15 (Key k) crypto_SHA256
                      (sha256_Sum (signing_input p0 p1)) signature in
     (forall text, verdict = Some text ->
                   verifySignature [p0; p1; p2] k = Err (lib_error crypto_rsa text)) /\
     (verdict = None -> verifySignature [p0; p1; p2] k = Ok tt)) /\
  (forall p1' signature text,
     base64_DecodeString p2 = Ok signature ->
     rsa_VerifyPKCS1v15 (Key k) crypto_SHA256 (sha256_Sum (signing_input p0 p1')) signature
       = Some text ->
     verifySignature [p0; p1'; p2] k = Err (lib_error crypto_rsa text)).
Proof.
  repeat split.
  - intros Hw. destruct (base64_DecodeString_malformed _ Hw) as [offset Hd].
    exists offset. rewrite verifySignature_three. now rewrite Hd.
  - intros Hw. rewrite <- base64_DecodeString_ok in Hw.
    destruct (base64_DecodeString p2) as [signature| |] eqn:Hd; try discriminate.
    exists signature. split; [reflexivity|]. cbv zeta.
    split; [intros text Hv | intros Hv]; rewrite verifySignature_three, Hd; cbn [obind];
      now rewrite Hv.
  - intros p1' signature text Hd Hv. rewrite verifySignature_three, Hd. cbn [obind].
    now rewrite Hv.
Qed.

(** C9. [verifySignature] reads [parts[0]], [parts[1]] and [parts[2]]
    without a check of the length: on fewer than three parts it panics
    with an index out of range, on three or more it does not panic, and
    the parts after the third play no role. *)
Theorem verifySignature_needs_three_parts parts k :
  ((length parts < 3)%nat ->
   verifySignature parts k = Panic (index_out_of_range (length parts) (length parts))) /\
  ((3 <= length parts)%nat ->
   is_Panic (verifySignature parts k) = false /\
   verifySignature parts k = verifySignature (take 3 parts) k).
Proof.
  split; intros Hlen.
  - destruct parts as [|p0 [|p1 [|p2 rest]]]; cbn in Hlen; try lia; reflexivity.
  - destruct parts as [|p0 [|p1 [|p2 rest]]]; cbn in Hlen; try lia.
    split; [|reflexivity].
    rewrite verifySignature_three.
    pose proof (base64_decode_error p2 0 []) as He. unfold base64_DecodeString.
    destruct (base64_decode p2 0 []) as [signature|e|p]; [|reflexivity|contradiction].
    cbn [obind]. now destruct (rsa_VerifyPKCS1v15 _ _ _ _).
Qed.

(** C8. [Email] returns the identity when it is not the empty string and
    the error "service account email not available" exactly when it is;
    [Sign] returns the error "private key not available" exactly when
    there is no private key, and otherwise the RSA PKCS#1v1.5 signature of
    the SHA-256 digest of the content (or the error of the RSA signing). *)
Theorem signer_identity_and_signature (s : serviceAcctSigner) ctx rand ss :
  (email s <> "" -> Email s ctx = Ok (email s)) /\
  (Email s ctx = Err (errors_New "service account email not available") <-> email s = "") /\
  (is_Err (Email s ctx) = true <-> email s = "") /\
  (Sign s rand ctx ss = Err (errors_New "private key not available") <-> pk s = None) /\
  (forall key, pk s = Some key ->
     Sign s rand ctx ss =
     from_lib crypto_rsa (rsa_SignPKCS1v15 rand key crypto_SHA256 (sha256_Sum ss))).
Proof.
  unfold Email, Sign. split; [|split; [|split; [|split]]].
  - intros He. now destruct (String.eqb_spec (email s) "").
  - destruct (String.eqb_spec (email s) ""); split; intros; congruence.
  - destruct (String.eqb_spec (email s) ""); cbn; split; intros;
      first [assumption | reflexivity | congruence].
  - destruct (pk s) as [key|]; [|split; reflexivity].
    split; [|discriminate]. destruct (rsa_SignPKCS1v15 _ _ _ _); discriminate.
  - intros key ->. reflexivity.
Qed.

(** C7. A signature that [Sign] makes of a content verifies: for an RSA
    key pair, [verifySignature] with the public key returns nil on parts
    whose signing input is the content and whose third segment is the
    base64url encoding of the signature. *)
Theorem sign_then_verifySignature (s : serviceAcctSigner) key rand ctx content signature
    p0 p1 kid :
  rsa_sign_then_verify ->
  pk s = Some key ->
  signing_input p0 p1 = content ->
  Sign s rand ctx content = Ok signature ->
  verifySignature [p0; p1; base64_EncodeToString signature]
    {| Kid := kid; Key := rsa_Public key |} = Ok tt.
Proof.
  intros Hrsa Hpk Hcontent Hsign.
  unfold Sign in Hsign. rewrite Hpk in Hsign.
  destruct (rsa_SignPKCS1v15 _ _ _ _) as [sig|text] eqn:Hs; [|discriminate].
  injection Hsign as ->.
  rewrite verifySignature_three, base64_DecodeString_EncodeToString. cbn [obind Key].
  rewrite Hcontent. now rewrite (Hrsa _ _ _ _ _ Hs).
Qed.
End Signatures.

Lemma verifySignature_checks_signature_witness :
  let E := Fake.server "max-age=300" "{k1: rsa}" in
  let k := {| Kid := "k1"; Key := Fake.rsa_key |} in
  let good := base64_EncodeToString "sha256:header.payload#3233" in
  (exists offset, verifySignature ["header"; "payload"; "a"] k
                  = Err (base64_CorruptInputError offset)) /\
  verifySignature ["header"; "payload"; good] k = Ok tt /\
  verifySignature ["header"; "tampered"; good] k
  = Err (lib_error crypto_rsa "crypto/rsa: verification error").
Proof.
  cbv zeta.
  pose (E := Fake.server "max-age=300" "{k1: rsa}").
  pose (k := {| Kid := "k1"; Key := Fake.rsa_key |}).
  pose (good := base64_EncodeToString "sha256:header.payload#3233").
  split; [|split].
  - exact (proj1 (@verifySignature_checks_signature E "header" "payload" "a" k) eq_refl).
  - destruct (proj1 (proj2 (@verifySignature_checks_signature E "header" "payload" good k))
                eq_refl) as (signature & Hd & _ & Hok).
    apply Hok. vm_compute in Hd. injection Hd as <-. reflexivity.
  - exact (proj2 (proj2 (@verifySignature_checks_signature E "header" "payload" good k))
             "tampered" "sha256:header.payload#3233" _ eq_refl eq_refl).
Defined.

(** C5, as stated, fails: a third segment that starts with a carriage
    return and a line feed is not base64url text, and [verifySignature]
    returns nil for it, not a decode error. *)
Lemma verifySignature_accepts_line_breaks :
  let E := Fake.server "max-age=300" "{k1: rsa}" in
  let k := {| Kid := "k1"; Key := Fake.rsa_key |} in
  let p2 := String "013" (String "010" (base64_EncodeToString "sha256:header.payload#3233")) in
  base64url_text p2 = false /\
  verifySignature ["header"; "payload"; p2] k = Ok tt /\
  ~ decode_error_unless_base64url "header" "payload" p2 k.
Proof.
  cbv zeta. split; [vm_compute; reflexivity|]. split; [vm_compute; reflexivity|].
  unfold decode_error_unless_base64url. intros Hrule.
  destruct Hrule as [offset Hoffset]; [vm_compute; reflexivity|].
  vm_compute in Hoffset. discriminate.
Qed.

Lemma verifySignature_needs_three_parts_witness :
  let E := Fake.server "max-age=300" "{k1: rsa}" in
  let k := {| Kid := "k1"; Key := Fake.rsa_key |} in
  verifySignature ["header"; "payload"] k = Panic (index_out_of_range 2 2) /\
  verifySignature ["header"; "payload"; "c2ln"; "more"] k
  = verifySignature ["header"; "payload"; "c2ln"] k.
Proof.
  cbv zeta.
  pose (E := Fake.server "max-age=300" "{k1: rsa}").
  pose (k := {| Kid := "k1"; Key := Fake.rsa_key |}).
  split.
  - apply (proj1 (@verifySignature_needs_three_parts E ["header"; "payload"] k)).
    cbn. lia.
  - apply (proj2 (@verifySignature_needs_three_parts E
                    ["header"; "payload"; "c2ln"; "more"] k)).
    cbn. lia.
Defined.

Lemma signer_identity_and_signature_witness :
  let E := Fake.server "max-age=300" "{k1: rsa}" in
  let s := {| email := "svc@example.test"; pk := Some Fake.rsa_priv |} in
  Email s tt = Ok "svc@example.test" /\
  Sign s tt tt "content" = Ok "sha256:content#3233".
Proof.
  cbv zeta.
  pose (E := Fake.server "max-age=300" "{k1: rsa}").
  pose (s := {| email := "svc@example.test"; pk := Some Fake.rsa_priv |}).
  destruct (@signer_identity_and_signature E s tt tt "content")
    as (Hemail & _ & _ & _ & Hsign).
  split.
  - apply Hemail. discriminate.
  - apply (Hsign Fake.rsa_priv). reflexivity.
Defined.

Lemma sign_then_verifySignature_witness :
  let E := Fake.server "max-age=300" "{k1: rsa}" in
  let s := {| email := "svc@example.test"; pk := Some Fake.rsa_priv |} in
  rsa_sign_then_verify /\
  Sign s tt tt "header.payload" = Ok "sha256:header.payload#3233" /\
  verifySignature
    ["header"; "payload"; base64_EncodeToString "sha256:header.payload#3233"]
    {| Kid := "k1"; Key := Fake.rsa_key |} = Ok tt.
Proof.
  cbv zeta.
  pose (E := Fake.server "max-age=300" "{k1: rsa}").
  assert (Hrsa : @rsa_sign_then_verify E).
  { intros rand key hash digest signature Hs. cbn in Hs. injection Hs as <-.
    cbn. now rewrite String.eqb_refl. }
  split; [exact Hrsa|]. split; [reflexivity|].
  exact (@sign_then_verifySignature E
           {| email := "svc@example.test"; pk := Some Fake.rsa_priv |}
           Fake.rsa_priv tt tt "header.payload" "sha256:header.payload#3233"
           "header" "payload" "k1" Hrsa eq_refl eq_refl eq_refl).
Defined.

(** * Further properties of the code *)

(** ** findMaxAge: its results, and what it reads of the header *)

Lemma HasPrefix_max_age value :
  strings_HasPrefix value "max-age=" = true -> exists ds, value = ("max-age=" +:+ ds)%string.
Proof.
  unfold strings_HasPrefix. intros Hp. apply prefix_correct in Hp.
  cbn [String.length] in Hp.
  destruct value as [|c1 [|c2 [|c3 [|c4 [|c5 [|c6 [|c7 [|c8 ds]]]]]]]]; try discriminate.
  cbn in Hp. injection Hp as -> -> -> -> -> -> -> ->. now exists ds.
Qed.

(** An error of [strconv.ParseInt] is a [*strconv.NumError] that names the
    function and the text it was given. *)
Lemma strconv_ParseInt_Err s e :
  strconv_ParseInt s = Err e ->
  exists err, e = strconv_NumError "ParseInt" s err.
Proof.
  unfold strconv_ParseInt. destruct s as [|c rest]; [intros [= <-]; eauto|].
  destruct (strconv_ParseUint _) as [un|[]]; try (intros [= <-]; eauto).
  repeat match goal with |- context [if ?b then _ else _] => destruct b end;
    intros [= <-] || discriminate; eauto.
Qed.

Lemma strconv_ParseInt_no_panic s : is_Panic (strconv_ParseInt s) = false.
Proof.
  unfold strconv_ParseInt. destruct s as [|c rest]; [reflexivity|].
  destruct (strconv_ParseUint _) as [un|[]]; try reflexivity.
  repeat match goal with |- context [if ?b then _ else _] => destruct b end; reflexivity.
Qed.

(** One step of the loop of [findMaxAge], on a directive that starts with
    [max-age=] and on one that does not. *)
Lemma findMaxAge_range_cons_max_age v values ds :
  strings_TrimSpace v = ("max-age=" +:+ ds)%string ->
  findMaxAge_range (v :: values) =
  try seconds := strconv_ParseInt ds in Ok (wrap64 (seconds * time_Second)).
Proof.
  intros Hv. cbn [findMaxAge_range]. rewrite Hv.
  destruct (max_age_value ds) as [-> ->]. reflexivity.
Qed.

Lemma findMaxAge_range_cons_other v values :
  strings_HasPrefix (strings_TrimSpace v) "max-age=" = false ->
  findMaxAge_range (v :: values) = findMaxAge_range values.
Proof. intros Hv. cbn [findMaxAge_range]. now rewrite Hv. Qed.

(** X1. [findMaxAge] never panics, whatever the header holds: the slice
    [value[sep+1:]] is within the directive. It returns a duration, the
    error "Could not find expiry time from HTTP headers", or the
    [*strconv.NumError] of [strconv.ParseInt]. *)
Theorem findMaxAge_results {B} (resp : http_Response B) :
  match findMaxAge resp with
  | Ok _ => True
  | Err e =>
      e = errors_New "Could not find expiry time from HTTP headers" \/
      exists num err, e = strconv_NumError "ParseInt" num err
  | Panic _ => False
  end.
Proof.
  unfold findMaxAge.
  induction (strings_Split (Header_Get (resp_Header resp) "cache-control") ",")
    as [|v values IH]; [now left|].
  destruct (strings_HasPrefix (strings_TrimSpace v) "max-age=") eqn:Hp.
  - destruct (HasPrefix_max_age _ Hp) as [ds Hv].
    rewrite (findMaxAge_range_cons_max_age v values ds Hv).
    pose proof (strconv_ParseInt_no_panic ds) as Hn.
    destruct (strconv_ParseInt ds) as [seconds|e|p] eqn:Hd; cbn [obind]; try discriminate.
    + exact I.
    + right. destruct (strconv_ParseInt_Err _ _ Hd) as [err ->]. eauto.
  - now rewrite (findMaxAge_range_cons_other v values Hp).
Qed.

(** X2. [findMaxAge] returns the error "Could not find expiry time from
    HTTP headers" exactly when none of the comma-separated directives of
    the header, once trimmed, starts with [max-age=]. *)
Theorem findMaxAge_missing_directive {B} (resp : http_Response B) :
  findMaxAge resp = Err (errors_New "Could not find expiry time from HTTP headers") <->
  Forall (fun d => strings_HasPrefix d "max-age=" = false)
    (directives (Header_Get (resp_Header resp) "cache-control")).
Proof.
  unfold findMaxAge, directives.
  induction (strings_Split (Header_Get (resp_Header resp) "cache-control") ",")
    as [|v values IH]; [split; [constructor | reflexivity]|].
  rewrite fmap_cons, Forall_cons.
  destruct (strings_HasPrefix (strings_TrimSpace v) "max-age=") eqn:Hp.
  - destruct (HasPrefix_max_age _ Hp) as [ds Hv].
    rewrite (findMaxAge_range_cons_max_age v values ds Hv).
    split; [|intros [? _]; discriminate].
    destruct (strconv_ParseInt ds) as [seconds|e|p] eqn:Hd; cbn [obind]; try discriminate.
    destruct (strconv_ParseInt_Err _ _ Hd) as [err ->]. discriminate.
  - rewrite (findMaxAge_range_cons_other v values Hp), IH. tauto.
Qed.

(** X3. The first directive that starts with [max-age=] decides the result
    of [findMaxAge]: the text after the prefix goes through
    [strconv.ParseInt], whose error is returned as it is; the directives
    after it are not read, also when the first one does not parse. *)
Theorem findMaxAge_first_max_age_directive {B} (resp : http_Response B) (i : nat) ds :
  let cc := Header_Get (resp_Header resp) "cache-control" in
  directives cc !! i = Some ("max-age=" +:+ ds)%string ->
  (forall (j : nat) d, (j < i)%nat -> directives cc !! j = Some d ->
                       strings_HasPrefix d "max-age=" = false) ->
  findMaxAge resp =
  try seconds := strconv_ParseInt ds in Ok (wrap64 (seconds * time_Second)).
Proof.
  intros cc Hi Hfirst. unfold findMaxAge. fold cc.
  unfold directives in Hi, Hfirst.
  exact (findMaxAge_range_first (strings_Split cc ",") i ds Hi Hfirst).
Qed.

Lemma findMaxAge_first_max_age_directive_witness :
  findMaxAge {| resp_Header := {[ "Cache-Control" := ["no-cache , max-age=abc,max-age=5"] ]};
                resp_Body := tt |}
  = Err (strconv_NumError "ParseInt" "abc" ErrSyntax).
Proof.
  apply (findMaxAge_first_max_age_directive
           {| resp_Header := {[ "Cache-Control" := ["no-cache , max-age=abc,max-age=5"] ]};
              resp_Body := tt |} 1 "abc").
  - reflexivity.
  - intros [|j] d Hj Hd; [injection Hd as <-; reflexivity | lia].
Defined.

Lemma wrap64_range z : minInt64 <= wrap64 z <= maxInt64.
Proof.
  unfold wrap64, minInt64, maxInt64.
  pose proof (Z.mod_pos_bound (z + 2 ^ 63) (2 ^ 64) ltac:(lia)). lia.
Qed.

Lemma wrap64_mod z : wrap64 z mod 2 ^ 64 = z mod 2 ^ 64.
Proof.
  unfold wrap64. rewrite Zminus_mod, Zmod_mod, <- Zminus_mod. f_equal. lia.
Qed.

(** X4. For a header whose max-age directive is the decimal numeral of an
    [int64] [S], [findMaxAge] returns the [int64] product of [S] and
    [time.Second]: a duration congruent to [S] seconds modulo [2^64], which
    is [S] seconds exactly when [S] is between -9223372036 and
    9223372036; beyond, the product has wrapped around. *)
Theorem findMaxAge_duration_of_int64 {B} (resp : http_Response B) (S : Z) :
  max_age_directive (Header_Get (resp_Header resp) "cache-control") S ->
  minInt64 <= S <= maxInt64 ->
  exists d : Duration,
    findMaxAge resp = Ok d /\
    minInt64 <= d <= maxInt64 /\
    d mod 2 ^ 64 = (S * time_Second) mod 2 ^ 64 /\
    (d = S * time_Second <-> -9223372036 <= S <= 9223372036).
Proof.
  intros (i & Hi & Hfirst) HS. exists (wrap64 (S * time_Second)).
  split; [|split; [apply wrap64_range | split; [apply wrap64_mod|]]].
  - apply findMaxAge_max_age_wrap; [now exists i | exact HS].
  - pose proof (wrap64_range (S * time_Second)) as Hr.
    unfold time_Second, minInt64, maxInt64 in *. split.
    + intros Heq. rewrite Heq in Hr. lia.
    + intros Hb. apply wrap64_id. unfold minInt64, maxInt64. lia.
Qed.

Lemma findMaxAge_duration_of_int64_witness :
  exists d : Duration,
    findMaxAge {| resp_Header := {[ "Cache-Control" := ["max-age=9223372037"] ]};
                  resp_Body := tt |} = Ok d /\
    d = -9223372036709551616 /\
    d <> 9223372037 * time_Second.
Proof.
  destruct (findMaxAge_duration_of_int64
              {| resp_Header := {[ "Cache-Control" := ["max-age=9223372037"] ]};
                 resp_Body := tt |} 9223372037)
    as (d & Hd & _ & _ & Hexact).
  - exists 0%nat. split; [reflexivity | intros j d Hj; lia].
  - unfold minInt64, maxInt64. lia.
  - exists d. split; [exact Hd|]. split.
    + vm_compute in Hd. now injection Hd as <-.
    + intros Heq. apply Hexact in Heq. lia.
Defined.

(** X5. [findMaxAge] reads the header through [resp.Header.Get]: under
    the canonical key [Cache-Control], and only the first of its values.
    A second Cache-Control line plays no role, and a header that has no
    value under that key gives the error of a missing directive. *)
Theorem findMaxAge_reads_first_Cache_Control {B} (resp : http_Response B) :
  (forall v vs,
      resp_Header resp !! "Cache-Control" = Some (v :: vs) ->
      findMaxAge resp =
      findMaxAge {| resp_Header := {[ "Cache-Control" := [v] ]}; resp_Body := tt |}) /\
  (resp_Header resp !! "Cache-Control" = None \/ resp_Header resp !! "Cache-Control" = Some [] ->
   findMaxAge resp = Err (errors_New "Could not find expiry time from HTTP headers")).
Proof.
  assert (Hkey : textproto_CanonicalMIMEHeaderKey "cache-control" = "Cache-Control")
    by reflexivity.
  unfold findMaxAge, Header_Get. rewrite Hkey. cbn [resp_Header]. split.
  - intros v vs Hv. rewrite Hv. now rewrite lookup_singleton_eq.
  - intros [Hv|Hv]; rewrite Hv; reflexivity.
Qed.

Lemma findMaxAge_reads_first_Cache_Control_witness :
  findMaxAge {| resp_Header := {[ "Cache-Control" := ["no-cache"; "max-age=300"] ]};
                resp_Body := tt |}
  = Err (errors_New "Could not find expiry time from HTTP headers") /\
  findMaxAge {| resp_Header := {[ "cache-control" := ["max-age=300"] ]}; resp_Body := tt |}
  = Err (errors_New "Could not find expiry time from HTTP headers").
Proof.
  split.
  - rewrite (proj1 (findMaxAge_reads_first_Cache_Control
                      {| resp_Header := {[ "Cache-Control" := ["no-cache"; "max-age=300"] ]};
                         resp_Body := tt |}) "no-cache" ["max-age=300"]) by reflexivity.
    reflexivity.
  - apply (proj2 (findMaxAge_reads_first_Cache_Control
                    {| resp_Header := {[ "cache-control" := ["max-age=300"] ]};
                       resp_Body := tt |})).
    left. reflexivity.
Defined.

(** ** findMaxAge: a max-age that does not fit an [int64] *)

Section ParseIntRange.
Import DecimalPos.Unsigned.

(** One digit of the loop of [strconv.ParseUint]: the value goes on when it
    still fits a [uint64], and is a range error when it does not. *)
Lemma ParseUint_loop_digit c k s n :
  digit_of c = Some k -> 0 <= k <= 9 -> 0 <= n <= maxUint64 ->
  ParseUint_loop (String c s) n =
  if n * 10 + k <=? maxUint64 then ParseUint_loop s (n * 10 + k) else inr ErrRange.
Proof.
  intros Hc Hk Hn. cbn [ParseUint_loop]. rewrite Hc.
  unfold maxUint64, wrapU64 in *.
  change ((2 ^ 64 - 1) / 10 + 1) with 1844674407370955162.
  change (2 ^ 64) with 18446744073709551616 in *.
  destruct (Z.leb_spec 1844674407370955162 n) as [Hcut|Hcut].
  { destruct (Z.leb_spec (n * 10 + k) (18446744073709551616 - 1)); [lia | reflexivity]. }
  cbv zeta. rewrite (Z.mod_small (n * 10)) by lia.
  destruct (Z.leb_spec (n * 10 + k) (18446744073709551616 - 1)) as [Hfit|Hover].
  - rewrite (Z.mod_small (n * 10 + k)) by lia.
    destruct (Z.ltb_spec (n * 10 + k) (n * 10)); [lia|].
    destruct (Z.ltb_spec (18446744073709551616 - 1) (n * 10 + k)); [lia|]. reflexivity.
  - assert (Hw : (n * 10 + k) mod 18446744073709551616 = n * 10 + k - 18446744073709551616).
    { symmetry. apply Z.mod_unique with (q := 1); lia. }
    rewrite Hw. destruct (Z.ltb_spec (n * 10 + k - 18446744073709551616) (n * 10)); [|lia].
    reflexivity.
Qed.

Ltac overflow_digit IH D k :=
  rewrite (loop_value_step D k) in * by (intros; cbn; try reflexivity; lia);
  cbn [NilEmpty.string_of_uint];
  match goal with
  | |- ParseUint_loop (String _ (NilEmpty.string_of_uint ?d)) ?n = _ =>
      rewrite (ParseUint_loop_digit _ (Z.of_N k)) by (first [reflexivity | cbn; lia | lia]);
      destruct (Z.leb_spec (n * 10 + Z.of_N k) maxUint64); [|reflexivity];
      apply IH; cbn in *; lia
  end.

(** A numeral whose value is beyond [uint64] is a range error. *)
Lemma ParseUint_loop_overflow d n :
  0 <= n <= maxUint64 -> maxUint64 < loop_value d n ->
  ParseUint_loop (NilEmpty.string_of_uint d) n = inr ErrRange.
Proof.
  revert n. induction d; intros n Hn Hmax.
  - unfold loop_value in Hmax. cbn in Hmax. lia.
  - overflow_digit IHd Decimal.D0 0%N.
  - overflow_digit IHd Decimal.D1 1%N.
  - overflow_digit IHd Decimal.D2 2%N.
  - overflow_digit IHd Decimal.D3 3%N.
  - overflow_digit IHd Decimal.D4 4%N.
  - overflow_digit IHd Decimal.D5 5%N.
  - overflow_digit IHd Decimal.D6 6%N.
  - overflow_digit IHd Decimal.D7 7%N.
  - overflow_digit IHd Decimal.D8 8%N.
  - overflow_digit IHd Decimal.D9 9%N.
Qed.

Lemma ParseUint_numeral_overflow p :
  maxUint64 < Z.pos p ->
  strconv_ParseUint (NilZero.string_of_uint (Pos.to_uint p)) = inr ErrRange.
Proof.
  intros Hp. destruct (string_of_uint_nonnil _ (to_uint_nonnil p)) as [-> Hne].
  rewrite ParseUint_nonempty by assumption.
  assert (Hv : loop_value (Pos.to_uint p) 0 = Z.pos p).
  { unfold loop_value. rewrite <- of_uint_alt, of_to. reflexivity. }
  apply ParseUint_loop_overflow; [unfold maxUint64; lia | now rewrite Hv].
Qed.

(** [strconv.ParseInt] on the decimal numeral of a number that is not an
    [int64]. *)
Lemma strconv_ParseInt_out_of_range z :
  z < minInt64 \/ maxInt64 < z ->
  strconv_ParseInt (decimal z) = Err (strconv_NumError "ParseInt" (decimal z) ErrRange).
Proof.
  unfold minInt64, maxInt64, decimal. intros Hz. destruct z as [|p|p]; [lia| |].
  - cbn [Z.to_int NilZero.string_of_int].
    destruct (numeral_head p) as (c & s & Hs & Hm & Hp). rewrite Hs in *.
    unfold strconv_ParseInt. rewrite Hm, Hp. cbn [orb negb andb]. rewrite <- Hs.
    destruct (Z.le_gt_cases (Z.pos p) maxUint64) as [Hfit|Hover].
    + rewrite (ParseUint_numeral p Hfit).
      destruct (Z.leb_spec (2 ^ 63) (Z.pos p)); [reflexivity | lia].
    + now rewrite (ParseUint_numeral_overflow p) by lia.
  - cbn [Z.to_int NilZero.string_of_int].
    unfold strconv_ParseInt. cbn [Ascii.eqb Bool.eqb orb negb andb].
    destruct (Z.le_gt_cases (Z.pos p) maxUint64) as [Hfit|Hover].
    + rewrite (ParseUint_numeral p Hfit).
      destruct (Z.ltb_spec (2 ^ 63) (Z.pos p)); [reflexivity | lia].
    + now rewrite (ParseUint_numeral_overflow p) by lia.
Qed.
End ParseIntRange.

(** X6. A max-age whose decimal numeral is not an [int64] is not cut to the
    largest or the smallest duration: [findMaxAge] returns the range error
    of [strconv.ParseInt]. *)
Theorem findMaxAge_max_age_out_of_range {B} (resp : http_Response B) (S : Z) :
  max_age_directive (Header_Get (resp_Header resp) "cache-control") S ->
  S < minInt64 \/ maxInt64 < S ->
  findMaxAge resp = Err (strconv_NumError "ParseInt" (decimal S) ErrRange).
Proof.
  intros (i & Hi & Hfirst) HS. unfold findMaxAge.
  rewrite (findMaxAge_range_first _ i (decimal S) Hi Hfirst).
  now rewrite strconv_ParseInt_out_of_range.
Qed.

Lemma findMaxAge_max_age_out_of_range_witness :
  findMaxAge {| resp_Header := {[ "Cache-Control" := ["max-age=9223372036854775808"] ]};
                resp_Body := tt |}
  = Err (strconv_NumError "ParseInt" "9223372036854775808" ErrRange).
Proof.
  apply (findMaxAge_max_age_out_of_range
           {| resp_Header := {[ "Cache-Control" := ["max-age=9223372036854775808"] ]};
              resp_Body := tt |} 9223372036854775808).
  - exists 0%nat. split; [reflexivity | intros j d Hj; lia].
  - unfold maxInt64. lia.
Defined.

(** ** parsePublicKeys: all the entries of the document, or none *)

Section ParserMore.
Context `{External}.

(** The keys a [range] loop returns: those it started with, then one per
    entry, in the order of the loop. *)
Lemma parsePublicKeys_range_Ok entries : forall result out,
  parsePublicKeys_range entries result = Ok out ->
  exists keys,
    out = (result ++ keys)%list /\
    Forall2 (fun e pubKey => Kid pubKey = e.1 /\ rsa_key_of_pem e.2 = Some (Key pubKey))
      entries keys.
Proof.
  induction entries as [|[kid key] entries IH]; intros result out Hout.
  - injection Hout as <-. exists []. split; [now rewrite app_nil_r | constructor].
  - cbn [parsePublicKeys_range] in Hout.
    destruct (parsePublicKey kid key) as [pubKey|e|p] eqn:Hp; try discriminate.
    cbn [obind] in Hout. destruct (IH _ _ Hout) as (keys & -> & Hf).
    exists (pubKey :: keys). split; [now rewrite <- app_assoc|].
    constructor; [|exact Hf]. now apply parsePublicKey_Ok.
Qed.

(** The loop stops at the first entry that does not give a key, with the
    error or the panic of that entry. *)
Lemma parsePublicKeys_range_stops good : forall kid key rest result,
  Forall (fun e => is_Some (rsa_key_of_pem e.2)) good ->
  match parsePublicKey kid key with
  | Ok _ => True
  | Err e => parsePublicKeys_range (good ++ (kid, key) :: rest) result = Err e
  | Panic p => parsePublicKeys_range (good ++ (kid, key) :: rest) result = Panic p
  end.
Proof.
  induction good as [|[kid0 key0] good IH]; intros kid key rest result Hgood.
  - cbn [app parsePublicKeys_range]. now destruct (parsePublicKey kid key).
  - inversion Hgood as [|? ? [pk Hpk] Hrest]; subst. cbn in Hpk.
    assert (Hp : parsePublicKey kid0 key0 = Ok {| Kid := kid0; Key := pk |})
      by (apply parsePublicKey_Ok; auto).
    specialize (IH kid key rest (result ++ [{| Kid := kid0; Key := pk |}])%list Hrest).
    cbn [app parsePublicKeys_range]. rewrite Hp. cbn [obind]. exact IH.
Qed.

Lemma parsePublicKeys_Ok_inv_range seed contents keys :
  parsePublicKeys seed contents = Ok keys ->
  exists m,
    json_Unmarshal contents = LibOk m /\
    Forall2 (fun e pubKey => Kid pubKey = e.1 /\ rsa_key_of_pem e.2 = Some (Key pubKey))
      (map_range seed m) keys.
Proof.
  unfold parsePublicKeys. intros Hk.
  destruct (json_Unmarshal contents) as [m|text]; [|discriminate].
  cbn [from_lib obind] in Hk. exists m. split; [reflexivity|].
  destruct (parsePublicKeys_range_Ok _ _ _ Hk) as (keys' & -> & Hf). exact Hf.
Qed.

Lemma parsePublicKeys_range_of_keys entries keys : forall result,
  Forall2 (fun e pubKey => Kid pubKey = e.1 /\ rsa_key_of_pem e.2 = Some (Key pubKey))
    entries keys ->
  parsePublicKeys_range entries result = Ok (result ++ keys)%list.
Proof.
  intros result Hf. revert result.
  induction Hf as [|[kid key] pubKey entries keys Hhead _ IH]; intros result.
  - cbn. now rewrite app_nil_r.
  - cbn [parsePublicKeys_range]. cbn [fst snd] in Hhead.
    rewrite (proj2 (parsePublicKey_Ok kid key pubKey) Hhead). cbn [obind].
    rewrite IH. now rewrite <- app_assoc.
Qed.

(** X7. [parsePublicKeys] returns keys exactly when the document is a JSON
    object and every entry of it gives a key: the list then holds one key
    per entry, in the order of the [range] loop, each with the key ID of
    its entry and the RSA key of its certificate. No entry is skipped and
    no key is returned for a document with an entry that fails. *)
Theorem parsePublicKeys_Ok_every_entry seed contents keys :
  parsePublicKeys seed contents = Ok keys <->
  exists m,
    json_Unmarshal contents = LibOk m /\
    Forall2 (fun e pubKey => Kid pubKey = e.1 /\ rsa_key_of_pem e.2 = Some (Key pubKey))
      (map_range seed m) keys.
Proof.
  split; [apply parsePublicKeys_Ok_inv_range|].
  intros (m & Hjson & Hf). unfold parsePublicKeys. rewrite Hjson. cbn [from_lib obind].
  now rewrite (parsePublicKeys_range_of_keys _ _ [] Hf).
Qed.

(** X8. The key IDs of the keys [parsePublicKeys] returns are pairwise
    different, and they are the key IDs of the document: a [range] loop
    visits every entry of the map once. *)
Theorem parsePublicKeys_key_ids_unique seed contents (m : gmap string string) keys :
  json_Unmarshal contents = LibOk m ->
  map_range seed m ≡ₚ map_to_list m ->
  parsePublicKeys seed contents = Ok keys ->
  NoDup (Kid <$> keys) /\
  length keys = size m /\
  forall kid, kid ∈ (Kid <$> keys) <-> is_Some (m !! kid).
Proof.
  intros Hjson Hperm Hk. unfold parsePublicKeys in Hk. rewrite Hjson in Hk.
  cbn [from_lib obind] in Hk.
  destruct (parsePublicKeys_range_Ok _ _ _ Hk) as (keys' & -> & Hf). cbn [app].
  assert (Hids : Kid <$> keys' = (map_range seed m).*1).
  { clear -Hf. induction Hf as [|e pk es pks [Hkid _] _ IH]; [reflexivity|].
    cbn. now rewrite Hkid, IH. }
  rewrite Hids. split; [|split].
  - rewrite Hperm. apply NoDup_fst_map_to_list.
  - rewrite <- (Forall2_length _ _ _ Hf), Hperm. apply length_map_to_list.
  - intros kid. rewrite Hperm, list_elem_of_fmap. split.
    + intros ([kid' pem] & -> & He). apply elem_of_map_to_list in He. now exists pem.
    + intros [pem Hm]. exists (kid, pem). split; [reflexivity|].
      now apply elem_of_map_to_list.
Qed.

(** X9. [parsePublicKeys] stops at the first entry, in the order of the
    [range] loop, that does not give a key, and returns what
    [parsePublicKey] returned for it (an error or a panic): none of the
    keys parsed before it is returned. *)
Theorem parsePublicKeys_first_failure seed contents (m : gmap string string)
    good kid key rest :
  json_Unmarshal contents = LibOk m ->
  map_range seed m = (good ++ (kid, key) :: rest)%list ->
  Forall (fun e => is_Some (rsa_key_of_pem e.2)) good ->
  match parsePublicKey kid key with
  | Ok _ => True
  | Err e => parsePublicKeys seed contents = Err e
  | Panic p => parsePublicKeys seed contents = Panic p
  end.
Proof.
  intros Hjson Hrange Hgood. unfold parsePublicKeys. rewrite Hjson.
  cbn [from_lib obind]. rewrite Hrange.
  exact (parsePublicKeys_range_stops good kid key rest [] Hgood).
Qed.
End ParserMore.

Lemma parsePublicKeys_Ok_every_entry_witness :
  let E := Fake.server "max-age=300" "{k1: rsa}" in
  exists m,
    json_Unmarshal "{k1: rsa}" = LibOk m /\
    Forall2 (fun e pubKey => Kid pubKey = e.1 /\ rsa_key_of_pem e.2 = Some (Key pubKey))
      (map_range 0 m) [{| Kid := "k1"; Key := Fake.rsa_key |}].
Proof.
  cbv zeta.
  apply (proj1 (@parsePublicKeys_Ok_every_entry (Fake.server "max-age=300" "{k1: rsa}")
                  0%nat "{k1: rsa}" [{| Kid := "k1"; Key := Fake.rsa_key |}])).
  reflexivity.
Defined.

Lemma parsePublicKeys_key_ids_unique_witness :
  let E := Fake.server "max-age=300" "{k1: rsa}" in
  NoDup (Kid <$> [{| Kid := "k1"; Key := Fake.rsa_key |}]) /\
  length [{| Kid := "k1"; Key := Fake.rsa_key |}] = size ({[ "k1" := Fake.cert_rsa ]} : gmap string string) /\
  forall kid, kid ∈ (Kid <$> [{| Kid := "k1"; Key := Fake.rsa_key |}]) <->
              is_Some (({[ "k1" := Fake.cert_rsa ]} : gmap string string) !! kid).
Proof.
  cbv zeta.
  apply (@parsePublicKeys_key_ids_unique (Fake.server "max-age=300" "{k1: rsa}") 0%nat
           "{k1: rsa}" {[ "k1" := Fake.cert_rsa ]} [{| Kid := "k1"; Key := Fake.rsa_key |}]);
    reflexivity.
Defined.

Lemma parsePublicKeys_first_failure_witness :
  let E := Fake.server "max-age=300" "{k1: ec}" in
  parsePublicKeys 0 "{k1: ec}" = Err (errors_New "Certificate is not a RSA key").
Proof.
  cbv zeta.
  apply (@parsePublicKeys_first_failure (Fake.server "max-age=300" "{k1: ec}") 0%nat
           "{k1: ec}" {[ "k1" := Fake.cert_ec ]} [] "k1" Fake.cert_ec []).
  - reflexivity.
  - reflexivity.
  - constructor.
Defined.

(** ** Keys: what a call returns, what it changes and what it fetches *)

Section KeysMore.
Context `{External} {C : Type} `{!clock C}.
Implicit Types (k : httpKeySource C) (w : World) (ctx : context_Context) (hc : option Client).

Lemma refreshed_stale ctx hc k w :
  refreshed ctx hc k w <-> (stale_check k w).1 = true.
Proof.
  unfold refreshed. rewrite Keys_refresh_calls.
  destruct (stale_check k w).1; split; intros; first [reflexivity | lia | discriminate].
Qed.

(** [refreshKeys] writes the cache and the expiry, nothing else. *)
Lemma refreshKeys_configuration ctx hc k w :
  let k' := (refreshKeys ctx hc (k, w)).2.1 in
  KeyURI k' = KeyURI k /\ HTTPClient k' = HTTPClient k /\ Clock k' = Clock k.
Proof.
  rewrite refreshKeys_eq. cbv zeta.
  repeat match goal with
         | |- context [match ?x with _ => _ end] => destruct x
         end; cbn; auto.
Qed.

(** A refresh that does not succeed leaves the expiry as it was. *)
Lemma refreshKeys_failed_expiry ctx hc k w :
  is_Ok (refreshKeys ctx hc (k, w)).1 = false ->
  ExpiryTime (refreshKeys ctx hc (k, w)).2.1 = ExpiryTime k.
Proof.
  rewrite refreshKeys_eq. cbv zeta.
  repeat match goal with
         | |- context [match ?x with _ => _ end] => destruct x
         end; cbn; congruence.
Qed.

(** [Keys] in terms of the refresh, when the refresh has left the cache
    empty on a failure. *)
Lemma Keys_stale_eq ctx hc k w :
  (stale_check k w).1 = true ->
  Keys ctx hc (k, w) =
  match refreshKeys ctx hc (k, (stale_check k w).2) with
  | (Ok _, s') => (Ok (CachedKeys s'.1), s')
  | (Err e, s') => (Err e, s')
  | (Panic p, s') => (Panic p, s')
  end.
Proof.
  intros Hs. rewrite Keys_eq. cbv zeta. rewrite Hs.
  pose proof (refreshKeys_failed_empty ctx hc k (stale_check k w).2) as Hempty.
  destruct (refreshKeys ctx hc (k, (stale_check k w).2)) as [[u|e|p] s']; try reflexivity.
  cbn [fst snd is_Ok] in Hempty. now rewrite (Hempty eq_refl).
Qed.

Lemma Keys_fresh_eq ctx hc k w :
  (stale_check k w).1 = false ->
  Keys ctx hc (k, w) = (Ok (CachedKeys k), (k, (stale_check k w).2)).
Proof. intros Hs. rewrite Keys_eq. cbv zeta. now rewrite Hs. Qed.

(** X10. What [Keys] returns is what it leaves in the cache: the keys it
    returns are the cached keys after the call, and when it returns an
    error or panics the cache is empty after the call. *)
Theorem Keys_returns_its_cache ctx hc k w :
  let r := Keys ctx hc (k, w) in
  match r.1 with
  | Ok keys => CachedKeys r.2.1 = keys
  | Err _ => CachedKeys r.2.1 = []
  | Panic _ => CachedKeys r.2.1 = []
  end.
Proof.
  cbv zeta. destruct (stale_check k w).1 eqn:Hs.
  - rewrite (Keys_stale_eq ctx hc k w Hs).
    pose proof (refreshKeys_failed_empty ctx hc k (stale_check k w).2) as Hempty.
    destruct (refreshKeys ctx hc (k, (stale_check k w).2)) as [[u|e|p] s'];
      cbn [fst snd is_Ok] in *; auto.
  - now rewrite (Keys_fresh_eq ctx hc k w Hs).
Qed.

(** X11. [Keys] never changes the URI, the HTTP client or the clock of the
    key source. It changes the expiry only in a refresh that succeeds, and
    without a refresh it leaves the whole key source as it is. *)
Theorem Keys_keeps_configuration ctx hc k w :
  let r := Keys ctx hc (k, w) in
  (KeyURI r.2.1 = KeyURI k /\ HTTPClient r.2.1 = HTTPClient k /\ Clock r.2.1 = Clock k) /\
  (ExpiryTime r.2.1 = ExpiryTime k \/ (refreshed ctx hc k w /\ is_Ok r.1 = true)) /\
  (~ refreshed ctx hc k w -> r.2.1 = k).
Proof.
  cbv zeta. rewrite refreshed_stale. destruct (stale_check k w).1 eqn:Hs.
  - rewrite (Keys_stale_eq ctx hc k w Hs).
    pose proof (refreshKeys_configuration ctx hc k (stale_check k w).2) as Hc.
    pose proof (refreshKeys_failed_expiry ctx hc k (stale_check k w).2) as He.
    cbv zeta in Hc.
    destruct (refreshKeys ctx hc (k, (stale_check k w).2)) as [[u|e|p] s'];
      cbn [fst snd is_Ok] in *; (split; [exact Hc|]); (split; [|congruence]); auto.
  - rewrite (Keys_fresh_eq ctx hc k w Hs). cbn [fst snd]. auto.
Qed.

(** X12. A call of [Keys] issues at most one fetch and never retries: none
    without a refresh, and exactly one in a refresh whose request could be
    built. *)
Theorem Keys_at_most_one_fetch ctx hc k w :
  let w' := (Keys ctx hc (k, w)).2.2 in
  (http_calls w' = http_calls w \/ http_calls w' = S (http_calls w)) /\
  (~ refreshed ctx hc k w -> http_calls w' = http_calls w) /\
  (forall req, refreshed ctx hc k w -> http_NewRequest "GET" (KeyURI k) = LibOk req ->
               http_calls w' = S (http_calls w)) /\
  (forall text, http_NewRequest "GET" (KeyURI k) = LibErr text -> http_calls w' = http_calls w).
Proof.
  cbv zeta. rewrite refreshed_stale. destruct (stale_check k w).1 eqn:Hs.
  - rewrite (Keys_stale_state ctx hc k w Hs).
    pose proof (refreshKeys_world ctx hc k (stale_check k w).2) as [_ Hw].
    rewrite stale_check_http_calls in Hw. split; [exact Hw|]. split; [congruence|]. split.
    + intros req _ Hreq. rewrite (refreshKeys_fetches ctx hc k _ req Hreq).
      now rewrite stale_check_http_calls.
    + intros text Hreq. rewrite refreshKeys_eq, Hreq. cbn.
      apply stale_check_http_calls.
  - rewrite (Keys_fresh_eq ctx hc k w Hs). cbn [fst snd].
    rewrite stale_check_http_calls.
    split; [now left|]. split; [reflexivity|]. split; [|reflexivity].
    intros req Hf. apply refreshed_stale in Hf. congruence.
Qed.

(** X13. [Keys] returns an error exactly when it refreshes and
    [refreshKeys] returns that error: an error of the refresh is never
    swallowed, whatever the cache held before the call (the test
    [len(k.CachedKeys) == 0] after a failed refresh always holds). *)
Theorem Keys_error_iff_refresh_error ctx hc k w e s' :
  Keys ctx hc (k, w) = (Err e, s') <->
  (stale_check k w).1 = true /\
  refreshKeys ctx hc (k, (stale_check k w).2) = (Err e, s').
Proof.
  destruct (stale_check k w).1 eqn:Hs.
  - rewrite (Keys_stale_eq ctx hc k w Hs).
    destruct (refreshKeys ctx hc (k, (stale_check k w).2)) as [[u|e0|p] s0];
      split; first [intros [_ ?] | intros ?]; first [discriminate | split; congruence | congruence].
  - rewrite (Keys_fresh_eq ctx hc k w Hs). split; [discriminate | intros [? _]; discriminate].
Qed.
End KeysMore.

(** ** Keys: the override client, the second call, the first call *)

Section KeysCompose.
Context `{External} {C : Type} `{!clock C}.
Implicit Types (k : httpKeySource C) (w : World) (ctx : context_Context) (hc : option Client).

(** With an override client, [refreshKeys] does not read the client of the
    key source. *)
Lemma refreshKeys_override ctx (c : Client) k w own :
  refreshKeys ctx (Some c) (with_HTTPClient k own, w) =
  let r := refreshKeys ctx (Some c) (k, w) in
  (r.1, (with_HTTPClient r.2.1 own, r.2.2)).
Proof.
  rewrite !refreshKeys_eq. cbv zeta.
  cbn [client_of KeyURI Clock with_HTTPClient].
  repeat match goal with
         | |- context [match ?x with _ => _ end] => destruct x
         end; reflexivity.
Qed.

(** X14. With an override client, [Keys] does not use the HTTP client the
    key source was built with: the result, the fetches and the cache are
    the same whatever that client is. *)
Theorem Keys_override_client ctx (c : Client) k w own :
  let r := Keys ctx (Some c) (k, w) in
  let r' := Keys ctx (Some c) (with_HTTPClient k own, w) in
  r'.1 = r.1 /\ r'.2.2 = r.2.2 /\ r'.2.1 = with_HTTPClient r.2.1 own.
Proof.
  cbv zeta. rewrite !Keys_eq. cbv zeta.
  change (stale_check (with_HTTPClient k own) w) with (stale_check k w).
  destruct (stale_check k w).1; [|cbn [fst snd]; auto].
  rewrite refreshKeys_override. cbv zeta.
  destruct (refreshKeys ctx (Some c) (k, (stale_check k w).2)) as [[u|e|p] s'];
    cbn [fst snd CachedKeys with_HTTPClient]; auto.
  destruct (length (CachedKeys s'.1) =? 0)%nat; cbn [fst snd]; auto.
Qed.

(** The keys [Keys] returns are the keys of the cache it leaves. *)
Lemma Keys_Ok_cache ctx hc k w keys s' :
  Keys ctx hc (k, w) = (Ok keys, s') -> CachedKeys s'.1 = keys.
Proof.
  rewrite Keys_eq. cbv zeta. destruct (stale_check k w).1.
  - destruct (refreshKeys ctx hc (k, (stale_check k w).2)) as [[u|e|p] s0]; try discriminate.
    + now intros [= <- <-].
    + destruct (length (CachedKeys s0.1) =? 0)%nat; [discriminate | now intros [= <- <-]].
  - now intros [= <- <-].
Qed.

(** X15. After a call of [Keys] that returned keys, a second call while the
    clock reads no later than the expiry returns the same keys, leaves the
    key source as it is and issues no fetch: the cache answers. *)
Theorem Keys_again_before_expiry ctx hc ctx' hc' k w keys k' w' :
  Keys ctx hc (k, w) = (Ok keys, (k', w')) ->
  keys <> [] ->
  (Now (Clock k') w').1 <= ExpiryTime k' ->
  Keys ctx' hc' (k', w') = (Ok keys, (k', (Now (Clock k') w').2)) /\
  http_calls (Keys ctx' hc' (k', w')).2.2 = http_calls w'.
Proof.
  intros Hfirst Hne Hnow. apply Keys_Ok_cache in Hfirst. cbn [fst] in Hfirst.
  destruct (Keys_fresh ctx' hc' k' w') as [Hk Hfetch]; [congruence | exact Hnow |].
  split; [|exact Hfetch]. now rewrite Hk, Hfirst.
Qed.

(** X17. When the document parses but the response has no max-age
    directive, the parsed keys are not installed: [Keys] returns the error
    "Could not find expiry time from HTTP headers" and the cache is empty,
    whatever it held before. *)
Theorem Keys_missing_max_age ctx hc k w req resp contents newKeys :
  (stale_check k w).1 = true ->
  let w1 := (stale_check k w).2 in
  http_NewRequest "GET" (KeyURI k) = LibOk req ->
  ctxhttp_Do (http_calls w1) ctx (client_of k hc) req = LibOk resp ->
  ioutil_ReadAll (resp_Body resp) = LibOk contents ->
  parsePublicKeys (http_calls w1) contents = Ok newKeys ->
  Forall (fun d => strings_HasPrefix d "max-age=" = false)
    (directives (Header_Get (resp_Header resp) "cache-control")) ->
  Keys ctx hc (k, w) =
  (Err (errors_New "Could not find expiry time from HTTP headers"),
   (with_CachedKeys k [], tick_http (tick_refresh w1))).
Proof.
  intros Hs w1 Hreq Hdo Hread Hparse Hnone.
  assert (Hage : findMaxAge resp
                 = Err (errors_New "Could not find expiry time from HTTP headers")).
  { unfold findMaxAge. unfold directives in Hnone.
    induction (strings_Split (Header_Get (resp_Header resp) "cache-control") ",")
      as [|v values IH]; [reflexivity|].
    rewrite fmap_cons in Hnone. apply Forall_cons in Hnone as [Hv Hrest].
    cbn [findMaxAge_range]. rewrite Hv. now apply IH. }
  rewrite Keys_eq. cbv zeta. rewrite Hs. fold w1.
  rewrite refreshKeys_eq. cbv zeta. now rewrite Hreq, Hdo, Hread, Hparse, Hage.
Qed.
End KeysCompose.

Section FirstCall.
Context `{External}.

(** [refreshKeys] reads the system clock once when it succeeds, and not at
    all when it fails. *)
Lemma refreshKeys_system_clock ctx hc (k : httpKeySource systemClock) w :
  now_calls (refreshKeys ctx hc (k, w)).2.2 =
  if is_Ok (refreshKeys ctx hc (k, w)).1 then S (now_calls w) else now_calls w.
Proof.
  rewrite refreshKeys_eq. cbv zeta.
  destruct (http_NewRequest "GET" (KeyURI k)) as [req|text]; [|reflexivity].
  destruct (ctxhttp_Do _ _ _ _) as [resp|text]; [|reflexivity].
  destruct (ioutil_ReadAll _) as [contents|text]; [|reflexivity].
  destruct (parsePublicKeys _ _) as [newKeys|e|p]; try reflexivity.
  destruct (findMaxAge resp) as [maxAge|e|p]; reflexivity.
Qed.

(** X16. The first call of [Keys] on a key source made by
    [newHTTPKeySource] refreshes, whatever the clock reads and whether or
    not the request can be built: the cache starts empty, and the clock is
    not asked. The fetch goes to the URI with the client given at
    construction unless the call overrides it. The system clock is read
    once when the refresh succeeds and not at all when it fails; when it
    succeeds the expiry is that reading plus the max-age. *)
Theorem newHTTPKeySource_first_Keys uri own ctx hc w :
  let k := newHTTPKeySource uri own in
  let r := Keys ctx hc (k, w) in
  refreshed ctx hc k w /\
  client_of k hc = match hc with Some c => Some c | None => own end /\
  (forall req, http_NewRequest "GET" uri = LibOk req ->
               http_calls r.2.2 = S (http_calls w)) /\
  now_calls r.2.2 = (if is_Ok r.1 then S (now_calls w) else now_calls w) /\
  forall req resp contents newKeys maxAge,
    http_NewRequest "GET" uri = LibOk req ->
    ctxhttp_Do (http_calls w) ctx (client_of k hc) req = LibOk resp ->
    ioutil_ReadAll (resp_Body resp) = LibOk contents ->
    parsePublicKeys (http_calls w) contents = Ok newKeys ->
    findMaxAge resp = Ok maxAge ->
    r = (Ok newKeys,
         (with_ExpiryTime (with_CachedKeys k newKeys) (time_Now (now_calls w) + maxAge),
          tick_now (tick_http (tick_refresh w)))).
Proof.
  intros k r.
  assert (Hs : stale_check k w = (true, w)) by reflexivity.
  assert (Hstale : (stale_check k w).1 = true) by now rewrite Hs.
  split; [now apply refreshed_stale|]. split; [reflexivity|]. split; [|split].
  - intros req Hreq.
    exact (proj2 (Keys_empty_refetches ctx hc k w req eq_refl Hreq)).
  - unfold r. rewrite (Keys_stale_eq ctx hc k w Hstale), Hs. cbn [snd].
    pose proof (refreshKeys_system_clock ctx hc k w) as Hclock.
    destruct (refreshKeys ctx hc (k, w)) as [[u|e|p] s']; exact Hclock.
  - intros req resp contents newKeys maxAge Hreq Hdo Hread Hparse Hage.
    unfold r. rewrite (Keys_stale_eq ctx hc k w Hstale), Hs. cbn [snd].
    rewrite (refreshKeys_Ok ctx hc k w req resp contents newKeys maxAge
               Hreq Hdo Hread Hparse Hage).
    reflexivity.
Qed.
End FirstCall.

Lemma Keys_again_before_expiry_witness :
  let E := Fake.server "max-age=300" "{k1: rsa}" in
  let k := Fake.source E [] Time_zero 5000 in
  let first := Keys tt None (k, Fake.w0) in
  first.1 = Ok [{| Kid := "k1"; Key := Fake.rsa_key |}] /\
  Keys tt None first.2 = (Ok [{| Kid := "k1"; Key := Fake.rsa_key |}], first.2) /\
  http_calls (Keys tt None first.2).2.2 = 1%nat.
Proof.
  cbv zeta.
  pose (E := Fake.server "max-age=300" "{k1: rsa}").
  pose (first := @Keys E mockClock _ tt None (Fake.source E [] Time_zero 5000, Fake.w0)).
  destruct (@Keys_again_before_expiry E mockClock _ tt None tt None
              (Fake.source E [] Time_zero 5000) Fake.w0
              [{| Kid := "k1"; Key := Fake.rsa_key |}] first.2.1 first.2.2)
    as [Hsecond Hfetch].
  - reflexivity.
  - discriminate.
  - vm_compute. discriminate.
  - split; [reflexivity|]. split; [exact Hsecond | exact Hfetch].
Defined.

Lemma Keys_missing_max_age_witness :
  let E := Fake.server "no-cache" "{k1: rsa}" in
  let k := Fake.source E [{| Kid := "k0"; Key := Fake.rsa_key |}] 5000 5001 in
  Keys tt None (k, Fake.w0) =
  (Err (errors_New "Could not find expiry time from HTTP headers"),
   (with_CachedKeys k [], tick_http (tick_refresh Fake.w0))).
Proof.
  cbv zeta.
  assert (Hnone : Forall (fun d => strings_HasPrefix d "max-age=" = false)
                    (directives (Header_Get {[ "Cache-Control" := ["no-cache"] ]}
                                   "cache-control")))
    by (vm_compute; repeat constructor).
  exact (@Keys_missing_max_age (Fake.server "no-cache" "{k1: rsa}") mockClock _ tt None
           (Fake.source _ [{| Kid := "k0"; Key := Fake.rsa_key |}] 5000 5001) Fake.w0
           "GET https://example.test/keys"
           {| resp_Header := {[ "Cache-Control" := ["no-cache"] ]}; resp_Body := "{k1: rsa}" |}
           "{k1: rsa}" [{| Kid := "k1"; Key := Fake.rsa_key |}]
           eq_refl eq_refl eq_refl eq_refl eq_refl Hnone).
Defined.

Lemma newHTTPKeySource_first_Keys_witness :
  let E := Fake.server "max-age=300" "{k1: rsa}" in
  let k := newHTTPKeySource "https://example.test/keys" None in
  refreshed (C := systemClock) tt None k Fake.w0 /\
  Keys (C := systemClock) tt None (k, Fake.w0) =
  (Ok [{| Kid := "k1"; Key := Fake.rsa_key |}],
   (with_ExpiryTime (with_CachedKeys k [{| Kid := "k1"; Key := Fake.rsa_key |}])
      (0 + 300 * time_Second),
    tick_now (tick_http (tick_refresh Fake.w0)))).
Proof.
  cbv zeta.
  destruct (@newHTTPKeySource_first_Keys (Fake.server "max-age=300" "{k1: rsa}")
              "https://example.test/keys" None tt None Fake.w0)
    as (Hrefreshed & _ & _ & _ & Hkeys).
  split; [exact Hrefreshed|].
  apply (Hkeys "GET https://example.test/keys"
           {| resp_Header := {[ "Cache-Control" := ["max-age=300"] ]};
              resp_Body := "{k1: rsa}" |} "{k1: rsa}"); reflexivity.
Defined.

(** ** Keys: the keys of a refresh are those of the fetched document *)

Section Wholesale.
Context `{External} {C : Type} `{!clock C}.
Implicit Types (k : httpKeySource C) (w : World) (ctx : context_Context) (hc : option Client).

(** X18. The keys [Keys] returns after a refresh are the keys of the
    document it fetched, one per entry and in the order of the [range]
    loop, whatever the cache held before: a refresh replaces the snapshot
    as a whole, and no key cached earlier is kept. *)
Theorem Keys_refresh_replaces_snapshot ctx hc k w keys s' :
  refreshed ctx hc k w ->
  Keys ctx hc (k, w) = (Ok keys, s') ->
  let w1 := (stale_check k w).2 in
  exists req resp contents m,
    http_NewRequest "GET" (KeyURI k) = LibOk req /\
    ctxhttp_Do (http_calls w1) ctx (client_of k hc) req = LibOk resp /\
    ioutil_ReadAll (resp_Body resp) = LibOk contents /\
    json_Unmarshal contents = LibOk m /\
    Forall2 (fun e pubKey => Kid pubKey = e.1 /\ rsa_key_of_pem e.2 = Some (Key pubKey))
      (map_range (http_calls w1) m) keys /\
    CachedKeys s'.1 = keys.
Proof.
  intros Hr Hk w1. apply refreshed_stale in Hr.
  rewrite (Keys_stale_eq ctx hc k w Hr) in Hk. fold w1 in Hk.
  destruct (refreshKeys ctx hc (k, w1)) as [[[]|e|p] s0] eqn:Hrefresh; try discriminate.
  injection Hk as <- <-.
  destruct (refreshKeys_Ok_inv _ _ _ _ _ Hrefresh)
    as (req & resp & contents & newKeys & maxAge & Hreq & Hdo & Hread & Hparse & _ & Hs0).
  cbv zeta in Hs0. subst s0. cbn [fst CachedKeys with_ExpiryTime with_CachedKeys].
  destruct (parsePublicKeys_Ok_inv_range _ _ _ Hparse) as (m & Hjson & Hf).
  exists req, resp, contents, m. auto 10.
Qed.
End Wholesale.

Lemma Keys_refresh_replaces_snapshot_witness :
  let E := Fake.server "max-age=300" "{k1: rsa}" in
  let k := Fake.source E [{| Kid := "k0"; Key := Fake.rsa_key |}] 5000 5001 in
  let r := Keys tt None (k, Fake.w0) in
  r.1 = Ok [{| Kid := "k1"; Key := Fake.rsa_key |}] /\
  CachedKeys r.2.1 = [{| Kid := "k1"; Key := Fake.rsa_key |}].
Proof.
  cbv zeta.
  pose (E := Fake.server "max-age=300" "{k1: rsa}").
  pose (k := Fake.source E [{| Kid := "k0"; Key := Fake.rsa_key |}] 5000 5001).
  destruct (@Keys_refresh_replaces_snapshot E mockClock _ tt None k Fake.w0
              [{| Kid := "k1"; Key := Fake.rsa_key |}]
              (@Keys E mockClock _ tt None (k, Fake.w0)).2)
    as (req & resp & contents & m & _ & _ & _ & _ & _ & Hcache).
  - reflexivity.
  - reflexivity.
  - split; [reflexivity | exact Hcache].
Defined.

(** ** parsePrivateKey *)

Section PrivateKeyProperties.
Context `{External} `{PrivateKeyParsers}.

(** X19. [parsePrivateKey] returns a key exactly when the text holds a PEM
    block whose bytes either parse as a PKCS#8 key that is an RSA key, or
    do not parse as PKCS#8 and parse as a PKCS#1 key; the key returned is
    the parsed one. The PKCS#1 parser is tried only after an error of the
    PKCS#8 parser. *)
Theorem parsePrivateKey_Ok_iff key parsed :
  parsePrivateKey key = Ok parsed <->
  exists block,
    pem_Decode key = Some block /\
    (x509_ParsePKCS8PrivateKey (pem_Bytes block) = LibOk (RSAPrivateKey parsed) \/
     ((exists text, x509_ParsePKCS8PrivateKey (pem_Bytes block) = LibErr text) /\
      x509_ParsePKCS1PrivateKey (pem_Bytes block) = LibOk parsed)).
Proof.
  unfold parsePrivateKey. destruct (pem_Decode key) as [block|].
  2: { split; [discriminate | intros (block & Hb & _); discriminate]. }
  cbv zeta. split.
  - intros Hp. exists block. split; [reflexivity|].
    destruct (x509_ParsePKCS8PrivateKey (pem_Bytes block)) as [[k8|alg]|text8];
      cbn [obind] in Hp; try discriminate.
    + left. congruence.
    + right. split; [eauto|].
      destruct (x509_ParsePKCS1PrivateKey (pem_Bytes block)) as [k1|text1];
        cbn [obind] in Hp; [congruence | discriminate].
  - intros (block' & [= <-] & [H8 | [[text H8] H1]]); rewrite H8; [reflexivity|].
    now rewrite H1.
Qed.

(** X20. [parsePrivateKey] never panics: a text without a PEM block is the
    error "no private key data found in: " followed by the text. A PKCS#8
    key that is not an RSA key is the error "private key is not an RSA
    key", whatever the PKCS#1 parser would make of the bytes; and when both
    parsers fail, the error carries the text of the PKCS#1 error, not of
    the PKCS#8 one. *)
Theorem parsePrivateKey_failures key :
  is_Panic (parsePrivateKey key) = false /\
  (pem_Decode key = None <->
   parsePrivateKey key = Err (fmt_Errorf ("no private key data found in: " +:+ key))) /\
  (forall block algorithm,
      pem_Decode key = Some block ->
      x509_ParsePKCS8PrivateKey (pem_Bytes block) = LibOk (OtherPrivateKey algorithm) ->
      parsePrivateKey key = Err (errors_New "private key is not an RSA key")) /\
  (forall block text8 text1,
      pem_Decode key = Some block ->
      x509_ParsePKCS8PrivateKey (pem_Bytes block) = LibErr text8 ->
      x509_ParsePKCS1PrivateKey (pem_Bytes block) = LibErr text1 ->
      parsePrivateKey key =
      Err (fmt_Errorf ("private key should be a PEM or plain PKSC1 or PKCS8; parse error: "
                       +:+ text1))).
Proof.
  unfold parsePrivateKey. split; [|split; [|split]].
  - destruct (pem_Decode key) as [block|]; [|reflexivity]. cbv zeta.
    destruct (x509_ParsePKCS8PrivateKey _) as [[k8|alg]|text8]; try reflexivity.
    destruct (x509_ParsePKCS1PrivateKey _) as [k1|text1]; reflexivity.
  - destruct (pem_Decode key) as [block|]; [|split; reflexivity]. cbv zeta.
    split; [discriminate|].
    destruct (x509_ParsePKCS8PrivateKey _) as [[k8|alg]|text8]; try discriminate.
    destruct (x509_ParsePKCS1PrivateKey _) as [k1|text1]; discriminate.
  - intros block algorithm -> H8. cbv zeta. now rewrite H8.
  - intros block text8 text1 -> H8 H1. cbv zeta. now rewrite H8, H1.
Qed.
End PrivateKeyProperties.

Lemma parsePrivateKey_Ok_iff_witness :
  let E := Fake.server "max-age=300" "{k1: rsa}" in
  let P := FakePrivate.parsers in
  parsePrivateKey FakePrivate.pkcs8_rsa = Ok Fake.rsa_priv /\
  parsePrivateKey FakePrivate.pkcs1_rsa = Ok Fake.rsa_priv.
Proof.
  cbv zeta.
  pose (E := Fake.server "max-age=300" "{k1: rsa}").
  split.
  - apply (proj2 (@parsePrivateKey_Ok_iff E FakePrivate.parsers
                    FakePrivate.pkcs8_rsa Fake.rsa_priv)).
    exists {| pem_Type := "CERTIFICATE"; pem_Bytes := "PKCS8-RSA" |}.
    split; [reflexivity | left; reflexivity].
  - apply (proj2 (@parsePrivateKey_Ok_iff E FakePrivate.parsers
                    FakePrivate.pkcs1_rsa Fake.rsa_priv)).
    exists {| pem_Type := "CERTIFICATE"; pem_Bytes := "PKCS1-RSA" |}.
    split; [reflexivity | right; split; [eexists|]; reflexivity].
Defined.

Lemma parsePrivateKey_failures_witness :
  let E := Fake.server "max-age=300" "{k1: rsa}" in
  let P := FakePrivate.parsers in
  parsePrivateKey Fake.not_pem
  = Err (fmt_Errorf "no private key data found in: not a PEM block") /\
  x509_ParsePKCS1PrivateKey "PKCS8-EC" = LibOk Fake.rsa_priv /\
  parsePrivateKey FakePrivate.pkcs8_ec = Err (errors_New "private key is not an RSA key") /\
  parsePrivateKey FakePrivate.garbage
  = Err (fmt_Errorf
           "private key should be a PEM or plain PKSC1 or PKCS8; parse error: asn1: structure error").
Proof.
  cbv zeta.
  pose (E := Fake.server "max-age=300" "{k1: rsa}").
  destruct (@parsePrivateKey_failures E FakePrivate.parsers Fake.not_pem) as (_ & Hnone & _).
  destruct (@parsePrivateKey_failures E FakePrivate.parsers FakePrivate.pkcs8_ec)
    as (_ & _ & Hother & _).
  destruct (@parsePrivateKey_failures E FakePrivate.parsers FakePrivate.garbage)
    as (_ & _ & _ & Hboth).
  split; [now apply Hnone|]. split; [reflexivity|]. split.
  - apply (Hother {| pem_Type := "CERTIFICATE"; pem_Bytes := "PKCS8-EC" |} "ECDSA");
      reflexivity.
  - apply (Hboth {| pem_Type := "CERTIFICATE"; pem_Bytes := "XYZ" |}
             "x509: failed to parse private key" "asn1: structure error"); reflexivity.
Defined.

(** ** verifySignature: what the verdict depends on *)

Lemma forget_offset_map {A B} (f : A -> B) (o : outcome A) :
  forget_offset (outcome_map f o) = outcome_map f (forget_offset o).
Proof. destruct o as [a|[]|p]; reflexivity. Qed.

(** The decoder reads its input without the line feeds and the carriage
    returns; they only move the offset of an error. *)
Lemma base64_decode_payload s : forall si si' q,
  forget_offset (base64_decode s si q) =
  forget_offset (base64_decode (string_of_list_ascii (b64_payload s)) si' q).
Proof.
  induction s as [|ch rest IH]; intros si si' q.
  - cbn. destruct q as [|a [|b [|c q']]]; reflexivity.
  - cbn [base64_decode b64_payload].
    destruct (Ascii.eqb ch "010" || Ascii.eqb ch "013") eqn:Hnl; [apply IH|].
    cbn [string_of_list_ascii base64_decode]. rewrite Hnl.
    destruct (b64_value ch) as [d|]; [|reflexivity].
    destruct q as [|a [|b [|c [|x q']]]]; try apply IH.
    rewrite !forget_offset_map. f_equal. apply IH.
Qed.

Lemma forget_offset_obind {A B} (o o' : outcome A) (f : A -> outcome B) :
  forget_offset o = forget_offset o' ->
  (forall a, forget_offset (f a) = f a) ->
  forget_offset (obind o f) = forget_offset (obind o' f).
Proof.
  intros Ho Hf.
  destruct o as [a|[]|p], o' as [a'|[]|p']; cbn in *; try congruence.
Qed.

Section SignaturesMore.
Context `{External}.

Lemma forget_offset_rsa_verdict r : forget_offset (rsa_verdict r) = rsa_verdict r.
Proof. now destruct r. Qed.

(** X21. On a third segment that is the base64url encoding of a
    signature, [verifySignature] returns what [rsa.VerifyPKCS1v15] answers
    for the key, the SHA-256 digest of the first segment, a dot and the
    second segment, and that signature: decoding never fails on what the
    encoder wrote, and gives back the bytes of the signature. *)
Theorem verifySignature_of_encoded_signature p0 p1 signature k :
  verifySignature [p0; p1; base64_EncodeToString signature] k =
  rsa_verdict (rsa_VerifyPKCS1v15 (Key k) crypto_SHA256
                 (sha256_Sum (signing_input p0 p1)) signature).
Proof.
  rewrite verifySignature_three, base64_DecodeString_EncodeToString. reflexivity.
Qed.

(** X22. The verdict of [verifySignature] depends on the first two parts
    only through the text they form with a dot between them, on the third
    part only through the bytes it decodes to, and on the key only through
    its RSA key: parts that split the same signing input elsewhere, and a
    key with another key ID, get the same verdict. *)
Theorem verifySignature_same_signing_input p0 p1 p2 rest q0 q1 q2 rest' k k' :
  signing_input p0 p1 = signing_input q0 q1 ->
  base64_DecodeString p2 = base64_DecodeString q2 ->
  Key k = Key k' ->
  verifySignature (p0 :: p1 :: p2 :: rest) k = verifySignature (q0 :: q1 :: q2 :: rest') k'.
Proof.
  intros Hinput Hsig Hkey. rewrite !verifySignature_three. now rewrite Hinput, Hsig, Hkey.
Qed.

(** X23. Line feeds and carriage returns in the signature segment are
    ignored: two third segments that are the same text once these
    characters are left out get the same verdict, up to the offset named
    in the error of a segment that does not decode. In particular a token
    that verifies still verifies with line breaks put into its signature
    segment. *)
Theorem verifySignature_ignores_line_breaks p0 p1 p2 p2' k :
  b64_payload p2 = b64_payload p2' ->
  forget_offset (verifySignature [p0; p1; p2] k)
  = forget_offset (verifySignature [p0; p1; p2'] k) /\
  (verifySignature [p0; p1; p2] k = Ok tt -> verifySignature [p0; p1; p2'] k = Ok tt).
Proof.
  intros Hpayload.
  assert (Hsame : forget_offset (verifySignature [p0; p1; p2] k)
                  = forget_offset (verifySignature [p0; p1; p2'] k)).
  { rewrite !verifySignature_three. apply forget_offset_obind.
    - unfold base64_DecodeString.
      rewrite (base64_decode_payload p2 0 0 []), (base64_decode_payload p2' 0 0 []).
      now rewrite Hpayload.
    - intros signature. apply forget_offset_rsa_verdict. }
  split; [exact Hsame|].
  intros Hok. rewrite Hok in Hsame. cbn [forget_offset] in Hsame.
  destruct (verifySignature [p0; p1; p2'] k) as [[]|[]|p]; cbn in Hsame;
    first [reflexivity | discriminate].
Qed.
End SignaturesMore.

Lemma verifySignature_same_signing_input_witness :
  let E := Fake.server "max-age=300" "{k1: rsa}" in
  let good := base64_EncodeToString "sha256:a.b.c#3233" in
  verifySignature ["a.b"; "c"; good] {| Kid := "k1"; Key := Fake.rsa_key |} = Ok tt /\
  verifySignature ["a"; "b.c"; good; "more"] {| Kid := "k2"; Key := Fake.rsa_key |} = Ok tt.
Proof.
  cbv zeta.
  pose (E := Fake.server "max-age=300" "{k1: rsa}").
  pose (good := base64_EncodeToString "sha256:a.b.c#3233").
  assert (Hfirst : @verifySignature E ["a.b"; "c"; good] {| Kid := "k1"; Key := Fake.rsa_key |}
                   = Ok tt) by reflexivity.
  split; [exact Hfirst|].
  rewrite <- Hfirst. symmetry.
  apply (@verifySignature_same_signing_input E "a.b" "c" good [] "a" "b.c" good ["more"]);
    reflexivity.
Defined.

Lemma verifySignature_ignores_line_breaks_witness :
  let E := Fake.server "max-age=300" "{k1: rsa}" in
  let k := {| Kid := "k1"; Key := Fake.rsa_key |} in
  let good := base64_EncodeToString "sha256:header.payload#3233" in
  let broken := String "013" (String "010" good) in
  verifySignature ["header"; "payload"; good] k = Ok tt /\
  verifySignature ["header"; "payload"; broken] k = Ok tt.
Proof.
  cbv zeta.
  pose (E := Fake.server "max-age=300" "{k1: rsa}").
  pose (k := {| Kid := "k1"; Key := Fake.rsa_key |}).
  pose (good := base64_EncodeToString "sha256:header.payload#3233").
  assert (Hgood : @verifySignature E ["header"; "payload"; good] k = Ok tt) by reflexivity.
  split; [exact Hgood|].
  assert (Hpayload : b64_payload good = b64_payload (String "013" (String "010" good)))
    by (vm_compute; reflexivity).
  exact (proj2 (@verifySignature_ignores_line_breaks E "header" "payload" good
                  (String "013" (String "010" good)) k Hpayload) Hgood).
Defined.

(** ** Keys: the one way it panics *)

Section OnlyPanic.
Context `{External} {C : Type} `{!clock C}.
Implicit Types (k : httpKeySource C) (w : World) (ctx : context_Context) (hc : option Client).

Lemma parsePublicKey_Panic kid key p :
  parsePublicKey kid key = Panic p -> p = nil_pointer_dereference /\ pem_Decode key = None.
Proof.
  unfold parsePublicKey. destruct (pem_Decode key) as [block|]; [|now intros [= <-]].
  destruct (x509_ParseCertificate _) as [cert|text]; cbn; [|discriminate].
  destruct (cert_PublicKey cert); discriminate.
Qed.

Lemma parsePublicKeys_range_Panic entries : forall result p,
  parsePublicKeys_range entries result = Panic p ->
  p = nil_pointer_dereference /\
  exists kid key, (kid, key) ∈ entries /\ pem_Decode key = None.
Proof.
  induction entries as [|[kid key] entries IH]; intros result p Hp; [discriminate|].
  cbn [parsePublicKeys_range] in Hp.
  destruct (parsePublicKey kid key) as [pubKey|e|p'] eqn:Hkey; cbn [obind] in Hp;
    try discriminate.
  - destruct (IH _ _ Hp) as (-> & kid' & key' & Hin & Hnone).
    split; [reflexivity|]. exists kid', key'. split; [now right | exact Hnone].
  - injection Hp as <-. destruct (parsePublicKey_Panic _ _ _ Hkey) as [-> Hnone].
    split; [reflexivity|]. exists kid, key. split; [now left | exact Hnone].
Qed.

(** X24. [Keys] panics in one case only: in a refresh whose fetched
    document is a JSON object with an entry that holds no PEM block, with
    a nil pointer dereference. Every other failure of a refresh is an
    error value. *)
Theorem Keys_panics_only_on_absent_PEM ctx hc k w p s' :
  Keys ctx hc (k, w) = (Panic p, s') ->
  let w1 := (stale_check k w).2 in
  p = nil_pointer_dereference /\
  refreshed ctx hc k w /\
  exists req resp contents m kid key,
    http_NewRequest "GET" (KeyURI k) = LibOk req /\
    ctxhttp_Do (http_calls w1) ctx (client_of k hc) req = LibOk resp /\
    ioutil_ReadAll (resp_Body resp) = LibOk contents /\
    json_Unmarshal contents = LibOk m /\
    (kid, key) ∈ map_range (http_calls w1) m /\
    pem_Decode key = None.
Proof.
  intros Hk w1. rewrite refreshed_stale.
  destruct (stale_check k w).1 eqn:Hs.
  2: { rewrite (Keys_fresh_eq ctx hc k w Hs) in Hk. discriminate. }
  rewrite (Keys_stale_eq ctx hc k w Hs) in Hk. fold w1 in Hk.
  rewrite refreshKeys_eq in Hk. cbv zeta in Hk.
  destruct (http_NewRequest "GET" (KeyURI k)) as [req|text] eqn:Hreq; [|discriminate].
  destruct (ctxhttp_Do _ _ _ _) as [resp|text] eqn:Hdo; [|discriminate].
  destruct (ioutil_ReadAll _) as [contents|text] eqn:Hread; [|discriminate].
  destruct (parsePublicKeys _ _) as [newKeys|e|p'] eqn:Hparse; try discriminate.
  - pose proof (findMaxAge_range_no_panic
                  (strings_Split (Header_Get (resp_Header resp) "cache-control") ","))
      as Hno.
    fold (findMaxAge resp) in Hno.
    destruct (findMaxAge resp) as [maxAge|e|p']; discriminate.
  - injection Hk as <- _. unfold parsePublicKeys in Hparse.
    destruct (json_Unmarshal contents) as [m|text] eqn:Hjson; [|discriminate].
    cbn [from_lib obind] in Hparse.
    destruct (parsePublicKeys_range_Panic _ _ _ Hparse) as (-> & kid & key & Hin & Hnone).
    split; [reflexivity|]. split; [reflexivity|].
    exists req, resp, contents, m, kid, key. auto 10.
Qed.
End OnlyPanic.

Lemma Keys_panics_only_on_absent_PEM_witness :
  let E := Fake.server "max-age=300" "{k1: none}" in
  let k := Fake.source E [] Time_zero 5000 in
  exists m kid key,
    json_Unmarshal "{k1: none}" = LibOk m /\
    (kid, key) ∈ map_range 0 m /\
    pem_Decode key = None.
Proof.
  cbv zeta.
  pose (E := Fake.server "max-age=300" "{k1: none}").
  pose (k := Fake.source E [] Time_zero 5000).
  destruct (@Keys_panics_only_on_absent_PEM E mockClock _ tt None k Fake.w0
              nil_pointer_dereference (@Keys E mockClock _ tt None (k, Fake.w0)).2 eq_refl)
    as (_ & _ & req & resp & contents & m & kid & key & _ & Hdo & Hread & Hjson & Hin & Hnone).
  injection Hdo as <-. injection Hread as <-.
  exists m, kid, key. auto.
Defined.
